(** * DocVerify: the document registry of [src/index.ts]

    A shallow embedding of the five Express routes over the
    [StableBTreeMap] called [docStorage], together with the properties
    of the registry that the specification states.

    - JavaScript values are the inductive [value]; an object is a finite
      map from property names to values, so the object spread
      [{...a, ...b}] is a union in which the later operand wins.
    - [docStorage] is a finite map from keys to documents.  The key
      handed to [insert] is whatever [document.id] evaluates to, hence
      keys are values and a route parameter [id] is the key
      [VString id].
    - [uuidv4()] and [time()] are the two inputs the host supplies to a
      request; they are arguments of the handlers.
    - Numbers are IEEE-754 binary64, through the executable
      specification [SpecFloat] of the Standard Library. *)

From Stdlib Require Import ZArith Bool String.
From Stdlib.Floats Require Import SpecFloat.
From stdpp Require Import base countable gmap strings list fin_maps.

Local Open Scope string_scope.
Local Open Scope Z_scope.

(** ** JavaScript values *)

Module JS.

(** The values a document property can hold: what [JSON.parse] builds
    from a request body, the [Date] objects made by [getCurrentDate],
    and [undefined], the result of reading a property that is not
    there.  A [Date] is its time value: an integral number of
    milliseconds, or [None] for the invalid date. *)
#[local] Unset Elimination Schemes.
Inductive value : Type :=
  | VUndefined
  | VNull
  | VBool (b : bool)
  | VNumber (x : spec_float)
  | VString (s : string)
  | VDate (tv : option Z)
  | VArray (items : list value)
  | VObject (props : list (string * value)).
#[local] Set Elimination Schemes.

(** Induction over values that reaches inside arrays and objects. *)
Lemma value_nested_ind (P : value → Prop) :
  P VUndefined → P VNull → (∀ b, P (VBool b)) → (∀ x, P (VNumber x)) →
  (∀ s, P (VString s)) → (∀ tv, P (VDate tv)) →
  (∀ items, Forall P items → P (VArray items)) →
  (∀ props, Forall (λ kv, P kv.2) props → P (VObject props)) →
  ∀ v, P v.
Proof.
  intros Hu Hn Hb Hx Hs Hd Ha Ho.
  fix IH 1. intros [ | | b | x | s | tv | items | props ].
  - exact Hu.
  - exact Hn.
  - apply Hb.
  - apply Hx.
  - apply Hs.
  - apply Hd.
  - apply Ha. induction items as [|v items IHitems]; constructor.
    + apply IH.
    + exact IHitems.
  - apply Ho. induction props as [|[k v] props IHprops]; constructor.
    + apply IH.
    + exact IHprops.
Qed.

(** Atoms, as the leaves of a generic tree. *)
Definition leaf : Type :=
  (unit + unit) + (bool + string) + (option Z + (bool + bool + unit + bool * positive * Z)).

Definition float_code (x : spec_float) : bool + bool + unit + bool * positive * Z :=
  match x with
  | S754_zero s => inl (inl (inl s))
  | S754_infinity s => inl (inl (inr s))
  | S754_nan => inl (inr ())
  | S754_finite s m e => inr (s, m, e)
  end.

Definition float_decode (c : bool + bool + unit + bool * positive * Z) : spec_float :=
  match c with
  | inl (inl (inl s)) => S754_zero s
  | inl (inl (inr s)) => S754_infinity s
  | inl (inr _) => S754_nan
  | inr (s, m, e) => S754_finite s m e
  end.

Fixpoint value_encode (v : value) : gen_tree leaf :=
  match v with
  | VUndefined => GenLeaf (inl (inl (inl ())))
  | VNull => GenLeaf (inl (inl (inr ())))
  | VBool b => GenLeaf (inl (inr (inl b)))
  | VString s => GenLeaf (inl (inr (inr s)))
  | VDate tv => GenLeaf (inr (inl tv))
  | VNumber x => GenLeaf (inr (inr (float_code x)))
  | VArray items => GenNode 0 (map value_encode items)
  | VObject props =>
      GenNode 1 (map (λ kv, GenNode 2 [GenLeaf (inl (inr (inr kv.1))); value_encode kv.2]) props)
  end.

Fixpoint value_decode (t : gen_tree leaf) : value :=
  match t with
  | GenLeaf (inl (inl (inl _))) => VUndefined
  | GenLeaf (inl (inl (inr _))) => VNull
  | GenLeaf (inl (inr (inl b))) => VBool b
  | GenLeaf (inl (inr (inr s))) => VString s
  | GenLeaf (inr (inl tv)) => VDate tv
  | GenLeaf (inr (inr c)) => VNumber (float_decode c)
  | GenNode 0 ts => VArray (map value_decode ts)
  | GenNode _ ts =>
      VObject (map (λ t,
        match t with
        | GenNode _ [GenLeaf (inl (inr (inr k))); t'] => (k, value_decode t')
        | _ => (EmptyString, VUndefined)
        end) ts)
  end.

Lemma float_decode_code x : float_decode (float_code x) = x.
Proof. by destruct x. Qed.

Lemma value_decode_encode v : value_decode (value_encode v) = v.
Proof.
  induction v as [ | | b | x | s | tv | items IH | props IH ] using value_nested_ind;
    simpl; try done.
  - by rewrite float_decode_code.
  - f_equal. rewrite map_map. induction IH as [|v items Hv _ IHitems]; simpl; [done|].
    by rewrite Hv, IHitems.
  - f_equal. rewrite map_map. induction IH as [|[k v] props Hv _ IHprops]; simpl; [done|].
    simpl in Hv. by rewrite Hv, IHprops.
Qed.

#[global] Instance value_eq_dec : EqDecision value.
Proof.
  intros v w. destruct (decide (value_encode v = value_encode w)) as [E|N].
  - left. rewrite <- (value_decode_encode v), <- (value_decode_encode w). by rewrite E.
  - right. intros ->. by apply N.
Defined.

#[global] Instance value_countable : Countable value.
Proof. exact (inj_countable' value_encode value_decode value_decode_encode). Defined.

End JS.
Export JS.

(** ** Numbers and dates *)

Module Num.

(** binary64: 53 bits of precision, infinities at exponent 1024. *)
Definition prec : Z := 53.
Definition emax : Z := 1024.

(** [Number(n)] for a bigint [n]: the double nearest to [n], ties to
    even.  Also the value of an integer literal. *)
Definition Number (n : Z) : spec_float := binary_normalize prec emax n 0 false.

(** The operator [/] on numbers. *)
Definition div (x y : spec_float) : spec_float := SFdiv prec emax x y.

(** [trunc x]: the integer part of a finite double, rounding towards
    zero (the abstract operation ToIntegerOrInfinity). *)
Definition trunc (s : bool) (m : positive) (e : Z) : Z :=
  cond_Zopp s (Z.shiftl (Z.pos m) e).

(** [|m * 2^e| > bound], decided exactly. *)
Definition exceeds (m : positive) (e : Z) (bound : Z) : bool :=
  if e <? 0 then bound * 2 ^ (- e) <? Z.pos m else bound <? Z.pos m * 2 ^ e.

(** [TimeClip]: the time value of [new Date(x)] for a number [x].  A
    value that is not finite, or beyond 8.64e15 ms, gives the invalid
    date; otherwise the value is truncated to an integer. *)
Definition TimeClip (x : spec_float) : option Z :=
  match x with
  | S754_zero _ => Some 0
  | S754_finite s m e =>
      if exceeds m e 8640000000000000 then None else Some (trunc s m e)
  | S754_infinity _ | S754_nan => None
  end.

End Num.

(** ** Documents and the store *)

(** A document is a JavaScript object. *)
Abbreviation document := (gmap string value).

(** [docStorage]: the [StableBTreeMap] from keys to documents.  The map
    is the service's collaborator; it is taken to hand back the value
    it was given ([insert], [get], [remove], [values]). *)
Abbreviation store := (gmap value document).

(** [o.p]: reading a property; [undefined] when it is not there. *)
Definition prop (o : document) (p : string) : value := default VUndefined (o !! p).

(** [{...a, ...b}]: the properties of [b] laid over those of [a]. *)
Definition spread (a b : document) : document := b ∪ a.

(**
<<
function getCurrentDate() {
  const timestamp = new Number(time());
  return new Date(timestamp.valueOf() / 1000_000);
}
>>
    [time] is the reading of the host clock, a count of nanoseconds. *)
Definition getCurrentDate (time : Z) : value :=
  let timestamp := Num.Number time in
  VDate (Num.TimeClip (Num.div timestamp (Num.Number 1000000))).

(** What a handler sends: [res.json(..)] with the default status 200,
    or [res.status(code).send(text)]. *)
Inductive response : Type :=
  | json (d : document)
  | json_all (ds : list document)
  | status_send (code : Z) (text : string).

Definition status_of (r : response) : Z :=
  match r with
  | json _ | json_all _ => 200
  | status_send code _ => code
  end.

(** ** The routes *)

(** [POST /documents]
<<
  const document: Document = {
    id: uuidv4(),
    createdAt: getCurrentDate(),
    updatedAt: null,
    status: "pending",
    ...req.body,
  };
  docStorage.insert(document.id, document);
  res.json(document);
>>
    [body] holds the own properties of [req.body]. *)
Definition post_documents (uuid : string) (time : Z) (body : document)
    (docStorage : store) : response * store :=
  let document :=
    spread (<["status" := VString "pending"]>
             (<["updatedAt" := VNull]>
               (<["createdAt" := getCurrentDate time]>
                 (<["id" := VString uuid]> ∅)))) body in
  (json document, <[prop document "id" := document]> docStorage).

(** [GET /documents]: [res.json(docStorage.values())].  The order of
    the list is the map's own and nothing below depends on it. *)
Definition get_documents (docStorage : store) : response * store :=
  (json_all (map_to_list docStorage).*2, docStorage).

(** [GET /documents/:id]
<<
  const documentOpt = docStorage.get(documentId);
  if (!documentOpt) {
    res.status(404).send(`Document with id=${documentId} not found.`);
  } else {
    res.json(documentOpt);
  }
>> *)
Definition get_document (documentId : string) (docStorage : store) : response * store :=
  match docStorage !! VString documentId with
  | None =>
      (status_send 404 ("Document with id=" ++ documentId ++ " not found."), docStorage)
  | Some documentOpt => (json documentOpt, docStorage)
  end.

(** [PUT /documents/:id]
<<
  const documentOpt = docStorage.get(documentId);
  if (!documentOpt) {
    res.status(400).send(`Couldn't update document with id=${documentId}. Not found.`);
  } else {
    const document = documentOpt;
    const updatedDocument = {
      ...document,
      ...req.body,
      updatedAt: getCurrentDate(),
    };
    docStorage.insert(document.id, updatedDocument);
    res.json(updatedDocument);
  }
>> *)
Definition put_document (documentId : string) (time : Z) (body : document)
    (docStorage : store) : response * store :=
  match docStorage !! VString documentId with
  | None =>
      (status_send 400
         ("Couldn't update document with id=" ++ documentId ++ ". Not found."),
       docStorage)
  | Some document =>
      let updatedDocument :=
        <["updatedAt" := getCurrentDate time]> (spread (spread ∅ document) body) in
      (json updatedDocument, <[prop document "id" := updatedDocument]> docStorage)
  end.

(** [DELETE /documents/:id]
<<
  const deletedDocument = docStorage.remove(documentId);
  if (!deletedDocument) {
    res.status(400).send(`Couldn't delete document with id=${documentId}. Not found.`);
  } else {
    res.json(deletedDocument);
  }
>> *)
Definition delete_document (documentId : string) (docStorage : store) : response * store :=
  match docStorage !! VString documentId with
  | None =>
      (status_send 400
         ("Couldn't delete document with id=" ++ documentId ++ ". Not found."),
       docStorage)
  | Some deletedDocument => (json deletedDocument, delete (VString documentId) docStorage)
  end.

(** ** Requests and reachable states *)

Inductive request : Type :=
  | POST_documents (body : document)
  | GET_documents
  | GET_document (id : string)
  | PUT_document (id : string) (body : document)
  | DELETE_document (id : string).

(** One request, served with the identifier and the clock reading the
    host supplies. *)
Definition handle (uuid : string) (time : Z) (r : request) (docStorage : store)
    : response * store :=
  match r with
  | POST_documents body => post_documents uuid time body docStorage
  | GET_documents => get_documents docStorage
  | GET_document id => get_document id docStorage
  | PUT_document id body => put_document id time body docStorage
  | DELETE_document id => delete_document id docStorage
  end.

(** The states the service can be in: the empty store at start-up, and
    the store after any request served from such a state. *)
Inductive reachable : store → Prop :=
  | reachable_init : reachable ∅
  | reachable_step uuid time r s :
      reachable s → reachable (handle uuid time r s).2.

(** ** Auxiliary definitions for the proofs *)

(** The object literal of [POST /documents], before the body is laid
    over it. *)
Definition defaults (uuid : string) (time : Z) : document :=
  <["status" := VString "pending"]>
    (<["updatedAt" := VNull]>
      (<["createdAt" := getCurrentDate time]>
        (<["id" := VString uuid]> ∅))).

(** The merged record of [PUT /documents/:id]. *)
Definition merged (existing body : document) (time : Z) : document :=
  <["updatedAt" := getCurrentDate time]> (spread existing body).

(** A store in which every record sits under its own [id]. *)
Definition keyed_by_id (s : store) : Prop :=
  ∀ k d, s !! k = Some d → prop d "id" = k.

(** At most one stored record carries a given [id]. *)
Definition one_per_id (s : store) : Prop :=
  ∀ k1 k2 d1 d2, s !! k1 = Some d1 → s !! k2 = Some d2 →
    prop d1 "id" = prop d2 "id" → k1 = k2.

(** The body a request carries, if any. *)
Definition body_of (r : request) : document :=
  match r with
  | POST_documents body | PUT_document _ body => body
  | _ => ∅
  end.

(** The states reached by requests whose bodies leave [id] alone. *)
Inductive reachable_plain : store → Prop :=
  | reachable_plain_init : reachable_plain ∅
  | reachable_plain_step uuid time r s :
      reachable_plain s → body_of r !! "id" = None →
      reachable_plain (handle uuid time r s).2.

(** [plain_steps k s s']: from [s] to [s'] by requests whose bodies
    carry neither [id] nor [createdAt], none of them a create served
    with the identifier [k]. *)
Inductive plain_steps (k : value) : store → store → Prop :=
  | plain_steps_refl s : plain_steps k s s
  | plain_steps_step uuid time r s s' :
      plain_steps k s s' →
      body_of r !! "id" = None → body_of r !! "createdAt" = None → VString uuid ≠ k →
      plain_steps k s (handle uuid time r s').2.

(** A 4xx status. *)
Definition client_error (r : response) : Prop := 400 ≤ status_of r < 500.

(** The location of the fraction [N / D] between two integers, as the
    rounding functions of [SpecFloat] encode it. *)
Definition loc_of (N D : Z) : location :=
  if N mod D =? 0 then loc_Exact else loc_Inexact (2 * (N mod D) ?= D).

(** A shift record stands for the fraction [N / D]: its mantissa is the
    integer part, its round and sticky bits locate the rest. *)
Definition represents (mrs : shr_record) (N D : Z) : Prop :=
  0 < D ∧ 0 ≤ N ∧ shr_m mrs = N / D ∧ loc_of_shr_record mrs = loc_of N D.

(** Three clock readings and the states of a short session, used in the
    examples below. *)
Definition t0 : Z := 1700000000000000000.
Definition t1 : Z := 1700000001000000000.
Definition t2 : Z := 1700000002000000000.

(** The store after one create with an empty body. *)
Definition s_created : store := (handle "u1" t0 (POST_documents ∅) ∅).2.

(** The same store after [PUT /documents/u1] with the body
    [{"id": "u9"}]: the record under the key [u1] now says [id = u9]. *)
Definition s_renamed : store :=
  (handle "u2" t1 (PUT_document "u1" {["id" := VString "u9"]}) s_created).2.

(** A sequence of requests, each with the identifier and the clock
    reading it is served with; the responses in order, and the store at
    the end. *)
Definition run (rs : list (string * Z * request)) (s : store) : list response * store :=
  foldl (λ acc ur, let '(out, s) := acc in
                   let '(u, t, r) := ur in
                   let '(o, s') := handle u t r s in (out ++ [o], s'))%list ([], s) rs.

(** A record that has the four properties a create generates. *)
Definition has_generated_props (d : document) : Prop :=
  is_Some (d !! "id") ∧ is_Some (d !! "createdAt") ∧
  is_Some (d !! "updatedAt") ∧ is_Some (d !! "status").

(** A normal double, as mantissa and exponent. *)
Definition normal (m e : Z) : Prop := 2 ^ 52 ≤ m < 2 ^ 53.

(** The order of two positive normal doubles [m1 * 2^e1] and
    [m2 * 2^e2]. *)
Definition fle (m1 e1 m2 e2 : Z) : Prop := e1 < e2 ∨ (e1 = e2 ∧ m1 ≤ m2).

(** The double a rounded mantissa [a] in [2^52, 2^53] stands for at
    exponent [e], renormalised when the rounding carried. *)
Definition renorm (a e : Z) : spec_float :=
  if a <? 2 ^ 53 then S754_finite false (Z.to_pos a) e
  else S754_finite false (Z.to_pos (2 ^ 52)) (e + 1).

(** ** The statements of the specification that the code does not meet *)

(** Create: the response [id] is non-empty and is not the [id] of a
    record already stored (for an identifier generator that returns a
    non-empty string not in use as a key), and every reachable store
    has one record per [id]. *)
Definition create_id_unique_claim : Prop :=
  (∀ (s s' : store) uuid time body d,
     reachable s → uuid ≠ EmptyString → s !! VString uuid = None →
     post_documents uuid time body s = (json d, s') →
     prop d "id" ≠ VString EmptyString ∧ ∀ k d', s !! k = Some d' → prop d' "id" ≠ prop d "id")
  ∧ (∀ s, reachable s → one_per_id s).

(** Update: [createdAt] is what it was, whatever the body. *)
Definition createdAt_immutable_claim : Prop :=
  ∀ (s s' : store) id time body d d',
    reachable s → s !! VString id = Some d →
    put_document id time body s = (json d', s') →
    prop d' "createdAt" = prop d "createdAt".

(** Create then get: the same record, with [updatedAt] still absent. *)
Definition create_then_get_claim : Prop :=
  ∀ (s s' : store) uuid time body d id,
    post_documents uuid time body s = (json d, s') → prop d "id" = VString id →
    get_document id s' = (json d, s') ∧ prop d "updatedAt" = VNull.


(** ** Rounding: what [SpecFloat] computes for the clock *)

(** [digits2_pos] is the bit length of a positive number. *)
Lemma digits2_pos_size p : digits2_pos p = Pos.size p.
Proof. induction p as [p IH|p IH|]; simpl; by rewrite ?IH. Qed.

Lemma digits2_pos_bounds p :
  2 ^ (Z.pos (digits2_pos p) - 1) ≤ Z.pos p < 2 ^ Z.pos (digits2_pos p).
Proof.
  rewrite digits2_pos_size. split.
  - pose proof (Pos.size_le p) as H.
    assert (Z.pos (2 ^ Pos.size p) ≤ Z.pos p~0) as H' by exact H.
    rewrite Pos2Z.inj_pow in H'.
    replace (Z.pos (Pos.size p)) with (Z.succ (Z.pos (Pos.size p) - 1)) in H' by lia.
    rewrite Z.pow_succ_r in H' by lia. lia.
  - pose proof (Pos.size_gt p) as H.
    assert (Z.pos p < Z.pos (2 ^ Pos.size p)) as H' by exact H.
    by rewrite Pos2Z.inj_pow in H'.
Qed.

Lemma digits2_pos_unique p d :
  2 ^ (d - 1) ≤ Z.pos p < 2 ^ d → Z.pos (digits2_pos p) = d.
Proof.
  intros [Hlo Hhi]. pose proof (digits2_pos_bounds p) as [Glo Ghi].
  assert (0 < d) as Hd.
  { destruct (Z.ltb_spec 0 d) as [|Hle]; [done|].
    assert (2 ^ d ≤ 2 ^ 0) by (destruct (Z.ltb_spec d 0) as [Hn|];
      [rewrite Z.pow_neg_r by lia; simpl; lia | apply Z.pow_le_mono_r; lia]).
    simpl in *. lia. }
  destruct (Z.lt_trichotomy (Z.pos (digits2_pos p)) d) as [Hlt|[Heq|Hgt]]; [|done|].
  - assert (2 ^ Z.pos (digits2_pos p) ≤ 2 ^ (d - 1)) by (apply Z.pow_le_mono_r; lia). lia.
  - assert (2 ^ d ≤ 2 ^ (Z.pos (digits2_pos p) - 1)) by (apply Z.pow_le_mono_r; lia). lia.
Qed.


(** The record of a quotient and the location of its remainder stands
    for the fraction. *)
Lemma represents_of_loc m N D :
  0 < D → 0 ≤ N → m = N / D → represents (shr_record_of_loc m (loc_of N D)) N D.
Proof.
  intros HD HN ->. unfold represents, loc_of.
  destruct (N mod D =? 0); [by simpl|].
  by destruct (2 * (N mod D) ?= D).
Qed.

(** One shift to the right: the same fraction, counted in units twice
    as large. *)
Lemma shr_1_represents mrs N D : represents mrs N D → represents (shr_1 mrs) N (2 * D).
Proof.
  intros (HD & HN & Hm & Hl).
  pose proof (Z.div_mod N D ltac:(lia)) as Hdm.
  pose proof (Z.mod_pos_bound N D HD) as Hr.
  assert (0 ≤ N / D) as Hq by (apply Z.div_pos; lia).
  assert (N / (2 * D) = N / D / 2) as Hdiv.
  { rewrite Z.div_div by lia. f_equal. lia. }
  assert (N mod (2 * D) = N mod D + D * ((N / D) mod 2)) as Hmod.
  { rewrite (Z.mul_comm 2 D). apply Z.rem_mul_r; lia. }
  unfold represents. rewrite Hdiv. unfold loc_of in *. rewrite Hmod.
  set (r := N mod D) in *. set (q := N / D) in *.
  split; [lia|]. split; [done|].
  destruct mrs as [m b s]. simpl in Hm. subst m.
  assert (q = 2 * (q / 2) + q mod 2) as Hq2 by (apply Z.div_mod; lia).
  pose proof (Z.mod_pos_bound q 2 ltac:(lia)) as Hb2.
  assert (loc_of_shr_record (shr_1 {| shr_m := q; shr_r := b; shr_s := s |}) =
          loc_of_shr_record {| shr_m := q / 2; shr_r := negb (q mod 2 =? 0); shr_s := b || s |}
          ∧ shr_m (shr_1 {| shr_m := q; shr_r := b; shr_s := s |}) = q / 2) as [-> ->].
  { destruct q as [|[p|p|]|p]; try lia; simpl.
    - done.
    - rewrite Pos2Z.inj_xI. replace (2 * Z.pos p + 1) with (1 + Z.pos p * 2) by lia.
      rewrite Z.div_add, Z.mod_add by lia. done.
    - rewrite Pos2Z.inj_xO. replace (2 * Z.pos p) with (0 + Z.pos p * 2) by lia.
      rewrite Z.div_add, Z.mod_add by lia. done.
    - done. }
  split; [done|].
  simpl in Hl.
  destruct (Z.eqb_spec r 0) as [Hr0|Hr0].
  - destruct b, s; simpl in Hl; try discriminate.
    destruct (Z.eqb_spec (q mod 2) 0) as [Hb0|Hb0]; simpl.
    + rewrite Hb0. replace (r + D * 0) with 0 by lia. done.
    + replace (q mod 2) with 1 by lia.
      destruct (Z.eqb_spec (r + D * 1) 0); [lia|].
      replace (2 * (r + D * 1) ?= 2 * D) with Eq; [done|].
      symmetry. apply Z.compare_eq_iff. lia.
  - assert (b || s = true) as ->.
    { destruct b, s; simpl in Hl; try done. }
    destruct (Z.eqb_spec (q mod 2) 0) as [Hb0|Hb0]; simpl.
    + rewrite Hb0. replace (r + D * 0) with r by lia.
      destruct (Z.eqb_spec r 0); [lia|].
      replace (2 * r ?= 2 * D) with Lt; [done|].
      symmetry. apply Z.compare_lt_iff. lia.
    + replace (q mod 2) with 1 by lia.
      destruct (Z.eqb_spec (r + D * 1) 0); [lia|].
      replace (2 * (r + D * 1) ?= 2 * D) with Gt; [done|].
      symmetry. apply Z.compare_gt_iff. lia.
Qed.

(** [p] shifts to the right. *)
Lemma iter_shr_1_represents p : ∀ mrs N D,
  represents mrs N D → represents (SpecFloat.iter_pos shr_1 p mrs) N (2 ^ Z.pos p * D).
Proof.
  induction p as [p IH|p IH|]; intros mrs N D H; simpl SpecFloat.iter_pos.
  - apply shr_1_represents, IH, IH in H.
    replace (2 ^ Z.pos p~1 * D) with (2 ^ Z.pos p * (2 ^ Z.pos p * (2 * D))); [done|].
    replace (Z.pos p~1) with (Z.pos p + Z.pos p + 1) by lia.
    rewrite !Z.pow_add_r by lia. change (2 ^ 1) with 2. lia.
  - apply IH, IH in H.
    replace (2 ^ Z.pos p~0 * D) with (2 ^ Z.pos p * (2 ^ Z.pos p * D)); [done|].
    replace (Z.pos p~0) with (Z.pos p + Z.pos p) by lia.
    rewrite Z.pow_add_r by lia. lia.
  - apply shr_1_represents in H. by change (2 ^ 1) with 2.
Qed.

(** Rounding to nearest, ties to even, moves the mantissa by at most
    half a unit. *)
Lemma round_nearest_even_represents mrs N D :
  represents mrs N D →
  let m' := round_nearest_even (shr_m mrs) (loc_of_shr_record mrs) in
  N / D ≤ m' ≤ N / D + 1 ∧ - D ≤ 2 * (m' * D - N) ≤ D.
Proof.
  intros (HD & HN & Hm & Hl). rewrite Hm, Hl. unfold loc_of.
  pose proof (Z.div_mod N D ltac:(lia)) as Hdm.
  pose proof (Z.mod_pos_bound N D HD) as Hr.
  set (r := N mod D) in *. set (q := N / D) in *.
  destruct (Z.eqb_spec r 0) as [Hr0|Hr0]; simpl.
  - nia.
  - destruct (Z.compare_spec (2 * r) D) as [He|He|He]; simpl.
    + destruct (Z.even q); nia.
    + nia.
    + nia.
Qed.

Lemma represents_loc_inv m l N D :
  represents (shr_record_of_loc m l) N D → m = N / D ∧ l = loc_of N D ∧ 0 < D ∧ 0 ≤ N.
Proof.
  intros (HD & HN & Hm & Hl). repeat split; try done.
  - by destruct l as [|[]].
  - rewrite <- Hl. by destruct l as [|[]].
Qed.

(** The exponent of a normal double. *)
Lemma fexp_normal e : -1074 ≤ e - 53 → fexp 53 1024 e = e - 53.
Proof. intros H. unfold fexp, emin. lia. Qed.

Lemma Zdigits2_unique m d : 0 < m → 2 ^ (d - 1) ≤ m < 2 ^ d → Zdigits2 m = d.
Proof. destruct m as [|p|p]; try lia. intros _. apply digits2_pos_unique. Qed.

Lemma shr_represents mrs e k N D :
  0 ≤ k → represents mrs N D →
  represents (shr mrs e k).1 N (2 ^ k * D) ∧ (shr mrs e k).2 = e + k.
Proof.
  intros Hk H. destruct k as [|p|p]; try lia; unfold shr; cbn [fst snd].
  - split; [|lia]. change (2 ^ 0) with 1. by rewrite Z.mul_1_l.
  - split; [|done]. by apply iter_shr_1_represents.
Qed.

(** [binary_round_aux] on a positive mantissa of [53 + k] bits that
    stands for [N / D]: it drops [k] bits, rounds to a mantissa [m'] within
    half a unit of [N / (2^k * D)], and renormalises when the rounding
    carries into a 54th bit. *)
Lemma binary_round_aux_spec mx ex lx N D k :
  represents (shr_record_of_loc mx lx) N D →
  0 ≤ k → 2 ^ (52 + k) ≤ mx < 2 ^ (53 + k) →
  -1074 ≤ ex + k → ex + k + 1 ≤ 971 →
  ∃ m', 2 ^ 52 ≤ m' ≤ 2 ^ 53 ∧
        - (2 ^ k * D) ≤ 2 * (m' * (2 ^ k * D) - N) ≤ 2 ^ k * D ∧
        binary_round_aux 53 1024 false mx ex lx =
          if m' <? 2 ^ 53 then S754_finite false (Z.to_pos m') (ex + k)
          else S754_finite false (Z.to_pos (2 ^ 52)) (ex + k + 1).
Proof.
  intros Hrep Hk Hmx Hlo Hhi.
  assert (0 < 2 ^ (52 + k)) as Hpos by (apply Z.pow_pos_nonneg; lia).
  assert (0 < 2 ^ k) as Hpk by (apply Z.pow_pos_nonneg; lia).
  assert (2 ^ (52 + k) = 2 ^ 52 * 2 ^ k) as E52 by (apply Z.pow_add_r; lia).
  assert (2 ^ (53 + k) = 2 ^ 53 * 2 ^ k) as E53 by (apply Z.pow_add_r; lia).
  assert (Zdigits2 mx = 53 + k) as Hd.
  { apply Zdigits2_unique; [lia|]. by replace (53 + k - 1) with (52 + k) by lia. }
  unfold binary_round_aux, shr_fexp. rewrite Hd.
  rewrite fexp_normal by lia.
  replace (53 + k + ex - 53 - ex) with k by lia.
  destruct (shr_represents (shr_record_of_loc mx lx) ex k N D Hk Hrep) as [Hrep' He'].
  destruct (shr (shr_record_of_loc mx lx) ex k) as [mrs' e']. simpl in Hrep', He'. subst e'.
  pose proof (round_nearest_even_represents _ _ _ Hrep') as [Hm' Hbd].
  destruct (represents_loc_inv _ _ _ _ Hrep) as (Hmx' & _ & HD & HN).
  assert (N / (2 ^ k * D) = mx / 2 ^ k) as Hq.
  { rewrite Hmx', Z.div_div by lia. f_equal. lia. }
  rewrite Hq in Hm'.
  assert (2 ^ 52 ≤ mx / 2 ^ k < 2 ^ 53) as Hm1.
  { split.
    - apply Z.div_le_lower_bound; lia.
    - apply Z.div_lt_upper_bound; lia. }
  set (m' := round_nearest_even (shr_m mrs') (loc_of_shr_record mrs')) in *.
  exists m'. split; [lia|]. split; [done|].
  change (2 ^ 52) with 4503599627370496 in *.
  change (2 ^ 53) with 9007199254740992 in *.
  destruct (Z.ltb_spec m' 9007199254740992) as [Hlt|Hge].
  - assert (Zdigits2 m' = 53) as Hd'.
    { apply Zdigits2_unique; [lia|]. change (2 ^ (53 - 1)) with 4503599627370496.
      change (2 ^ 53) with 9007199254740992. lia. }
    rewrite Hd'. rewrite fexp_normal by lia.
    replace (53 + (ex + k) - 53 - (ex + k)) with 0 by lia.
    unfold shr. cbn [shr_record_of_loc shr_m].
    destruct m' as [|p|p]; try lia.
    replace (ex + k <=? 1024 - 53) with true by (symmetry; apply Z.leb_le; lia).
    done.
  - assert (m' = 9007199254740992) as -> by lia.
    change (Zdigits2 9007199254740992) with 54.
    rewrite fexp_normal by lia.
    replace (54 + (ex + k) - 53 - (ex + k)) with 1 by lia.
    unfold shr. cbn [shr_record_of_loc shr_m SpecFloat.iter_pos shr_1].
    replace (ex + k + 1 <=? 1024 - 53) with true by (symmetry; apply Z.leb_le; lia).
    done.
Qed.

(** [q] shifts to the left. *)
Lemma iter_xO_pow2 p q : Z.pos (Pos.iter xO p q) = Z.pos p * 2 ^ Z.pos q.
Proof.
  apply (Pos.iter_ind _ xO p (λ q a, Z.pos a = Z.pos p * 2 ^ Z.pos q)).
  - change (2 ^ 1) with 2. lia.
  - intros q' a IH. rewrite Pos2Z.inj_succ, Z.pow_succ_r by lia. lia.
Qed.

Lemma represents_exact m : 0 < m → represents (shr_record_of_loc m loc_Exact) m 1.
Proof.
  intros Hm. unfold represents, loc_of. cbn [shr_record_of_loc shr_m loc_of_shr_record].
  rewrite Z.div_1_r, Z.mod_1_r. repeat split; lia.
Qed.


(** [Number t] for a bigint below [2^64]: a normal double; exact up to
    53 bits, otherwise within half a unit in the last place. *)
Lemma Number_spec t :
  0 < t < 2 ^ 64 →
  ∃ m e, Num.Number t = S754_finite false m e ∧
         2 ^ 52 ≤ Z.pos m < 2 ^ 53 ∧ -52 ≤ e ≤ 12 ∧
         ((e ≤ 0 ∧ Z.pos m = t * 2 ^ (- e)) ∨
          (0 < e ∧ 2 ^ 53 ≤ t ∧ - 2 ^ e ≤ 2 * (Z.pos m * 2 ^ e - t) ≤ 2 ^ e)).
Proof.
  intros [Ht0 Ht]. destruct t as [|p|p]; try lia.
  pose proof (digits2_pos_bounds p) as Hd.
  set (d := Z.pos (digits2_pos p)) in *.
  assert (1 ≤ d) as Hd1 by lia.
  assert (d ≤ 64) as Hd64.
  { destruct (Z.le_gt_cases d 64) as [|Hgt]; [done|].
    assert (2 ^ 64 ≤ 2 ^ (d - 1)) by (apply Z.pow_le_mono_r; lia). lia. }
  unfold Num.Number, Num.prec, Num.emax, binary_normalize, binary_round, shl_align. fold d.
  rewrite fexp_normal by lia.
  destruct (d + 0 - 53 - 0) as [|q|q] eqn:Eq.
  - (* exactly 53 bits *)
    assert (d = 53) as Hd53 by lia. rewrite Hd53 in Hd.
    destruct (binary_round_aux_spec (Z.pos p) 0 loc_Exact (Z.pos p) 1 0)
      as (m' & Hm' & Hbd & ->); [by apply represents_exact | lia | | lia | lia |].
    { change (52 + 0) with 52. change (53 + 0) with 53. change (53 - 1) with 52 in Hd. lia. }
    change (2 ^ 0 * 1) with 1 in Hbd. assert (m' = Z.pos p) as -> by lia.
    change (53 - 1) with 52 in Hd.
    replace (Z.pos p <? 2 ^ 53) with true by (symmetry; apply Z.ltb_lt; lia).
    exists p, 0. cbn [Z.to_pos]. split; [done|]. split; [lia|]. split; [lia|].
    left. change (2 ^ (- 0)) with 1. lia.
  - (* more than 53 bits: the low bits are rounded away *)
    assert (d = 53 + Z.pos q) as Hdq by lia.
    destruct (binary_round_aux_spec (Z.pos p) 0 loc_Exact (Z.pos p) 1 (Z.pos q))
      as (m' & Hm' & Hbd & ->); [by apply represents_exact | lia | | lia | lia |].
    { rewrite Hdq in Hd. by replace (53 + Z.pos q - 1) with (52 + Z.pos q) in Hd by lia. }
    rewrite Z.mul_1_r in Hbd. rewrite Z.add_0_l.
    assert (2 ^ 53 ≤ Z.pos p).
    { assert (2 ^ 53 ≤ 2 ^ (d - 1)) by (apply Z.pow_le_mono_r; lia). lia. }
    destruct (Z.ltb_spec m' (2 ^ 53)) as [Hlt|Hge].
    + exists (Z.to_pos m'), (Z.pos q). split; [done|].
      rewrite Z2Pos.id by lia. split; [lia|]. split; [lia|]. right. lia.
    + assert (m' = 2 ^ 53) as -> by lia.
      exists (Z.to_pos (2 ^ 52)), (Z.pos q + 1). split; [done|].
      rewrite Z2Pos.id by done. split; [done|]. split; [lia|]. right.
      rewrite Z.pow_add_r by lia. change (2 ^ 1) with 2.
      change (2 ^ 53) with (2 ^ 52 * 2) in Hbd. lia.
  - (* fewer than 53 bits: shifted left, exact *)
    assert (d = 53 - Z.pos q) as Hdq by lia.
    assert (0 < 2 ^ Z.pos q) as Hpq by (apply Z.pow_pos_nonneg; lia).
    assert (2 ^ 52 ≤ Z.pos p * 2 ^ Z.pos q < 2 ^ 53) as Hmz.
    { rewrite Hdq in Hd.
      replace 52 with (53 - Z.pos q - 1 + Z.pos q) by lia.
      replace 53 with (53 - Z.pos q + Z.pos q) at 2 by lia.
      rewrite !Z.pow_add_r by lia. nia. }
    destruct (binary_round_aux_spec (Z.pos (Pos.iter xO p q)) (d + 0 - 53) loc_Exact
                (Z.pos (Pos.iter xO p q)) 1 0)
      as (m' & Hm' & Hbd & ->); [by apply represents_exact | lia | | lia | lia |].
    { rewrite iter_xO_pow2. change (52 + 0) with 52. change (53 + 0) with 53. lia. }
    change (2 ^ 0 * 1) with 1 in Hbd.
    assert (m' = Z.pos (Pos.iter xO p q)) as -> by lia.
    rewrite iter_xO_pow2 in *.
    replace (Z.pos p * 2 ^ Z.pos q <? 2 ^ 53) with true by (symmetry; apply Z.ltb_lt; lia).
    exists (Z.to_pos (Z.pos p * 2 ^ Z.pos q)), (d + 0 - 53 + 0). split; [done|].
    rewrite Z2Pos.id by lia. split; [lia|]. split; [lia|].
    left. split; [lia|]. f_equal. f_equal. lia.
Qed.

Lemma div_eucl_div_mod a b : Z.div_eucl a b = (a / b, a mod b).
Proof. unfold Z.div, Z.modulo. by destruct (Z.div_eucl a b). Qed.

(** The double [1000000]: its mantissa is [10^6 * 2^33]. *)
Lemma Number_million : Num.Number 1000000 = S754_finite false 8589934592000000 (-33).
Proof. reflexivity. Qed.

(** Dividing a normal double [m * 2^e] by the double [1000000]: the
    quotient, rounded to nearest, ties to even. *)
Lemma div_million_spec m e :
  2 ^ 52 ≤ Z.pos m < 2 ^ 53 → -52 ≤ e ≤ 12 →
  ∃ k m', 0 ≤ k ≤ 1 ∧ 2 ^ 52 ≤ m' ≤ 2 ^ 53 ∧
    - (2 ^ k * 8589934592000000) ≤
      2 * (m' * (2 ^ k * 8589934592000000) - Z.pos m * 2 ^ 53) ≤ 2 ^ k * 8589934592000000 ∧
    Num.div (S754_finite false m e) (Num.Number 1000000) =
      if m' <? 2 ^ 53 then S754_finite false (Z.to_pos m') (e - 20 + k)
      else S754_finite false (Z.to_pos (2 ^ 52)) (e - 20 + k + 1).
Proof.
  intros Hm He. rewrite Number_million.
  unfold Num.div, Num.prec, Num.emax, SFdiv, SFdiv_core_binary. cbn [xorb].
  rewrite (Zdigits2_unique (Z.pos m) 53) by (change (53 - 1) with 52; lia).
  change (Zdigits2 8589934592000000) with 53.
  rewrite fexp_normal by lia.
  rewrite Z.min_l by lia.
  replace (e - -33 - (53 + e - (53 + -33) - 53)) with 53 by lia.
  rewrite Z.shiftl_mul_pow2 by lia.
  rewrite div_eucl_div_mod.
  set (N := Z.pos m * 2 ^ 53). set (D := 8589934592000000).
  change (new_location D (N mod D)) with (loc_of N D).
  assert (0 < D) as HD by done.
  assert (0 ≤ N) as HN by (unfold N; lia).
  pose proof (represents_of_loc (N / D) N D HD HN eq_refl) as Hrep.
  assert (2 ^ 52 ≤ N / D < 2 ^ 54) as Hq.
  { split.
    - apply Z.div_le_lower_bound; [done|]. unfold N, D.
      change (2 ^ 53) with 9007199254740992 in *. change (2 ^ 52) with 4503599627370496 in *. lia.
    - apply Z.div_lt_upper_bound; [done|]. unfold N, D.
      change (2 ^ 53) with 9007199254740992 in *. change (2 ^ 54) with 18014398509481984 in *. lia. }
  replace (53 + e - (53 + -33) - 53) with (e - 20) by lia.
  destruct (Z.lt_ge_cases (N / D) (2 ^ 53)) as [Hlt|Hge].
  - destruct (binary_round_aux_spec (N / D) (e - 20) (loc_of N D) N D 0)
      as (m' & Hm' & Hbd & ->); [done | lia | | lia | lia |].
    { change (52 + 0) with 52. change (53 + 0) with 53. lia. }
    exists 0, m'. split; [lia|]. split; [done|]. by split.
  - destruct (binary_round_aux_spec (N / D) (e - 20) (loc_of N D) N D 1)
      as (m' & Hm' & Hbd & ->); [done | lia | | lia | lia |].
    { change (52 + 1) with 53. change (53 + 1) with 54. lia. }
    exists 1, m'. split; [lia|]. split; [done|]. by split.
Qed.





(** ** Equations of the handlers *)

Lemma spread_empty (o : document) : spread ∅ o = o.
Proof. unfold spread. apply (right_id ∅ (∪)). Qed.

Lemma lookup_spread (a b : document) (p : string) :
  spread a b !! p = match b !! p with Some v => Some v | None => a !! p end.
Proof.
  unfold spread. destruct (b !! p) as [v|] eqn:E.
  - by apply lookup_union_Some_l.
  - by rewrite lookup_union_r.
Qed.

Lemma post_documents_eq uuid time body (s : store) :
  post_documents uuid time body s =
    (json (spread (defaults uuid time) body),
     <[prop (spread (defaults uuid time) body) "id" := spread (defaults uuid time) body]> s).
Proof. reflexivity. Qed.

Lemma defaults_id uuid time : defaults uuid time !! "id" = Some (VString uuid).
Proof. unfold defaults. by simplify_map_eq. Qed.

Lemma defaults_status uuid time : defaults uuid time !! "status" = Some (VString "pending").
Proof. unfold defaults. by simplify_map_eq. Qed.

Lemma defaults_updatedAt uuid time : defaults uuid time !! "updatedAt" = Some VNull.
Proof. unfold defaults. by simplify_map_eq. Qed.

Lemma defaults_createdAt uuid time :
  defaults uuid time !! "createdAt" = Some (getCurrentDate time).
Proof. unfold defaults. by simplify_map_eq. Qed.

Lemma prop_created_id uuid time body :
  prop (spread (defaults uuid time) body) "id" =
    match body !! "id" with Some v => v | None => VString uuid end.
Proof.
  unfold prop. rewrite lookup_spread, defaults_id. by destruct (body !! "id").
Qed.

Lemma put_document_found id time body (s : store) d :
  s !! VString id = Some d →
  put_document id time body s = (json (merged d body time), <[prop d "id" := merged d body time]> s).
Proof. intros E. unfold put_document, merged. by rewrite E, spread_empty. Qed.

Lemma put_document_missing id time body (s : store) :
  s !! VString id = None →
  put_document id time body s =
    (status_send 400 ("Couldn't update document with id=" ++ id ++ ". Not found."), s).
Proof. intros E. unfold put_document. by rewrite E. Qed.

Lemma lookup_merged d body time (p : string) :
  merged d body time !! p =
    if decide (p = "updatedAt") then Some (getCurrentDate time)
    else match body !! p with Some v => Some v | None => d !! p end.
Proof.
  unfold merged. case_decide as E.
  - subst. by rewrite lookup_insert_eq.
  - rewrite lookup_insert_ne by done. apply lookup_spread.
Qed.

Lemma prop_merged_id d body time :
  body !! "id" = None → prop (merged d body time) "id" = prop d "id".
Proof. intros E. unfold prop. rewrite lookup_merged. by rewrite decide_False, E. Qed.

(** ** Records stay under their own [id] while bodies leave [id] alone *)

Lemma reachable_plain_reachable s : reachable_plain s → reachable s.
Proof. induction 1; by constructor. Qed.

Lemma keyed_by_id_insert (s : store) d :
  keyed_by_id s → keyed_by_id (<[prop d "id" := d]> s).
Proof.
  intros Hs k d'. rewrite lookup_insert. case_decide.
  - intros [= <-]. done.
  - apply Hs.
Qed.

Lemma keyed_by_id_step uuid time r s :
  body_of r !! "id" = None → keyed_by_id s → keyed_by_id (handle uuid time r s).2.
Proof.
  intros Hb Hs. destruct r as [body| |id|id body|id]; simpl in *.
  - by apply keyed_by_id_insert.
  - done.
  - unfold get_document. by destruct (s !! VString id).
  - destruct (s !! VString id) as [d|] eqn:E.
    + rewrite (put_document_found _ _ _ _ _ E). simpl.
      rewrite <- (prop_merged_id d body time Hb). by apply keyed_by_id_insert.
    + by rewrite (put_document_missing _ _ _ _ E).
  - unfold delete_document. destruct (s !! VString id) as [d|] eqn:E; simpl; [|done].
    intros k d'. rewrite lookup_delete. case_decide; [done|]. apply Hs.
Qed.

Lemma reachable_plain_keyed s : reachable_plain s → keyed_by_id s.
Proof.
  induction 1 as [|uuid time r s _ IH Hb].
  - intros k d. by rewrite lookup_empty.
  - by apply keyed_by_id_step.
Qed.

(** A record found after such a request was there before it, with the
    same [createdAt]. *)
Lemma step_lookup_createdAt uuid time r (s : store) k d' :
  keyed_by_id s →
  body_of r !! "id" = None → body_of r !! "createdAt" = None → VString uuid ≠ k →
  (handle uuid time r s).2 !! k = Some d' →
  ∃ d, s !! k = Some d ∧ d' !! "createdAt" = d !! "createdAt".
Proof.
  intros Hs Hid Hc Hu. destruct r as [body| |id|id body|id]; simpl in Hid, Hc; unfold handle.
  - rewrite post_documents_eq. cbn [snd]. rewrite prop_created_id, Hid.
    rewrite lookup_insert_ne by done. eauto.
  - unfold get_documents. cbn [snd]. eauto.
  - unfold get_document. destruct (s !! VString id); cbn [snd]; eauto.
  - destruct (s !! VString id) as [d0|] eqn:E.
    + rewrite (put_document_found _ _ _ _ _ E). cbn [snd]. rewrite (Hs _ _ E).
      rewrite lookup_insert. case_decide as Hk.
      * intros [= <-]. subst k. exists d0. split; [done|].
        rewrite lookup_merged, decide_False by done. by rewrite Hc.
      * eauto.
    + rewrite (put_document_missing _ _ _ _ E). cbn [snd]. eauto.
  - unfold delete_document. destruct (s !! VString id) as [d0|] eqn:E; cbn [snd]; [|eauto].
    rewrite lookup_delete. case_decide; [done|]. eauto.
Qed.

Lemma plain_steps_keyed k s s' : plain_steps k s s' → keyed_by_id s → keyed_by_id s'.
Proof.
  induction 1 as [|uuid time r s s' _ IH Hid _ _]; [done|].
  intros Hs. by apply keyed_by_id_step, IH.
Qed.

Lemma keyed_one_per_id s : keyed_by_id s → one_per_id s.
Proof.
  intros Hs k1 k2 d1 d2 H1 H2 E.
  by rewrite <- (Hs _ _ H1), <- (Hs _ _ H2).
Qed.

Lemma s_created_reachable : reachable s_created.
Proof. apply reachable_step, reachable_init. Qed.

Lemma s_created_lookup :
  s_created !! VString "u1" = Some (spread (defaults "u1" t0) ∅).
Proof.
  unfold s_created, handle. rewrite post_documents_eq. cbn [snd].
  rewrite prop_created_id, lookup_empty. apply lookup_insert_eq.
Qed.

Lemma s_created_lookup_ne k : k ≠ VString "u1" → s_created !! k = None.
Proof.
  intros Hk. unfold s_created, handle. rewrite post_documents_eq. cbn [snd].
  rewrite prop_created_id, lookup_empty. by rewrite lookup_insert_ne.
Qed.

Lemma s_renamed_reachable : reachable s_renamed.
Proof. apply reachable_step, s_created_reachable. Qed.

Lemma s_renamed_eq :
  s_renamed =
    <[VString "u1" := merged (spread (defaults "u1" t0) ∅) {["id" := VString "u9"]} t1]> s_created.
Proof.
  unfold s_renamed, handle. rewrite (put_document_found _ _ _ _ _ s_created_lookup).
  cbn [snd]. by rewrite prop_created_id, lookup_empty.
Qed.

Lemma s_renamed_lookup :
  s_renamed !! VString "u1" =
    Some (merged (spread (defaults "u1" t0) ∅) {["id" := VString "u9"]} t1).
Proof. rewrite s_renamed_eq. apply lookup_insert_eq. Qed.

Lemma s_renamed_lookup_ne k : k ≠ VString "u1" → s_renamed !! k = None.
Proof.
  intros Hk. rewrite s_renamed_eq, lookup_insert_ne by done. by apply s_created_lookup_ne.
Qed.

Lemma renamed_id d time : prop (merged d {["id" := VString "u9"]} time) "id" = VString "u9".
Proof. unfold prop. rewrite lookup_merged, decide_False by done. by rewrite lookup_singleton_eq. Qed.

(** Where the record found sits under its own [id], an update puts the
    merged record back under the route's [id] and the keys of the store
    are the ones it had. *)
Lemma put_document_keyed id time body (s : store) d :
  s !! VString id = Some d → prop d "id" = VString id →
  put_document id time body s = (json (merged d body time), <[VString id := merged d body time]> s)
  ∧ dom (<[VString id := merged d body time]> s) = dom s.
Proof.
  intros Hd Hid. rewrite (put_document_found _ _ _ _ _ Hd), Hid. split; [done|].
  apply dom_insert_lookup_L. by rewrite Hd.
Qed.

(** The scenario of the specification: create, update the status, read,
    delete, read again. *)
Example concrete_scenario :
  let d0 := <["name" := VString "A"]> (<["hash" := VString "h1"]>
              (<["owner" := VString "o1"]> (defaults "u1" t0))) in
  let d1 := <["status" := VString "authenticated"]>
              (<["updatedAt" := VDate (Some 1700000001000)]> d0) in
  (run [("u1", t0, POST_documents
                     {["name" := VString "A"; "hash" := VString "h1"; "owner" := VString "o1"]});
        ("u2", t1, PUT_document "u1" {["status" := VString "authenticated"]});
        ("u3", t2, GET_document "u1");
        ("u4", t2, DELETE_document "u1");
        ("u5", t2, GET_document "u1")] ∅).1
  = [json d0; json d1; json d1; json d1; status_send 404 "Document with id=u1 not found."].
Proof. vm_compute. reflexivity. Qed.

(** A few clock readings, with the values JavaScript gives. *)
Example getCurrentDate_t0 : getCurrentDate t0 = VDate (Some 1700000000000).
Proof. vm_compute. reflexivity. Qed.

Example getCurrentDate_small : getCurrentDate 123456789 = VDate (Some 123).
Proof. vm_compute. reflexivity. Qed.

Example getCurrentDate_max :
  getCurrentDate 18446744073709551615 = VDate (Some 18446744073709).
Proof. vm_compute. reflexivity. Qed.

Example getCurrentDate_rounds_up :
  getCurrentDate 1700000000000999999 = VDate (Some 1700000000001).
Proof. vm_compute. reflexivity. Qed.

(** ** The properties of the specification *)

(** C1 (as amended).  In a state reached by requests whose bodies leave
    [id] alone, a create whose body carries no [id], served with a
    generated identifier that is non-empty and not yet a key, answers
    with that identifier: it is non-empty, no stored record has it, the
    record goes under it and nothing else in the store moves; and the
    store, before and after, holds one record per [id].  A create whose
    body carries an [id], in any state, answers with the supplied [id]
    and stores the record under it: a record already stored there is
    replaced, the store does not grow, and nothing else in it moves. *)
Theorem create_id_generated (s : store) uuid time body :
  (reachable_plain s → body !! "id" = None →
   uuid ≠ EmptyString → s !! VString uuid = None →
   ∃ d, post_documents uuid time body s = (json d, <[VString uuid := d]> s) ∧
        prop d "id" = VString uuid ∧ prop d "id" ≠ VString EmptyString ∧
        (∀ k d', s !! k = Some d' → prop d' "id" ≠ prop d "id") ∧
        (∀ k, k ≠ VString uuid → <[VString uuid := d]> s !! k = s !! k) ∧
        one_per_id s ∧ one_per_id (<[VString uuid := d]> s))
  ∧ (∀ v, body !! "id" = Some v →
     ∃ d, post_documents uuid time body s = (json d, <[v := d]> s) ∧
          prop d "id" = v ∧
          <[v := d]> s !! v = Some d ∧
          (∀ k, k ≠ v → <[v := d]> s !! k = s !! k) ∧
          (is_Some (s !! v) → size (<[v := d]> s) = size s)).
Proof.
  split.
  - intros Hs Hb Hu Hfresh.
    pose proof (reachable_plain_keyed s Hs) as Hkeyed.
    exists (spread (defaults uuid time) body).
    assert (prop (spread (defaults uuid time) body) "id" = VString uuid) as Hid.
    { by rewrite prop_created_id, Hb. }
    rewrite post_documents_eq, Hid. repeat split.
    + intros [= E]. by apply Hu.
    + intros k d' Hk E. rewrite (Hkeyed k d' Hk) in E. subst k. congruence.
    + intros k Hk. by rewrite lookup_insert_ne.
    + by apply keyed_one_per_id.
    + apply keyed_one_per_id. rewrite <- Hid at 1. by apply keyed_by_id_insert.
  - intros v Hb. exists (spread (defaults uuid time) body).
    assert (prop (spread (defaults uuid time) body) "id" = v) as Hid.
    { by rewrite prop_created_id, Hb. }
    rewrite post_documents_eq, Hid. repeat split.
    + apply lookup_insert_eq.
    + intros k Hk. by rewrite lookup_insert_ne.
    + intros Hold. by apply map_size_insert_Some.
Qed.

Lemma create_id_generated_witness :
  (reachable_plain s_created ∧ s_created !! VString "u1" = Some (spread (defaults "u1" t0) ∅) ∧
   ∃ d, post_documents "u2" t1 {["name" := VString "B"]} s_created
          = (json d, <[VString "u2" := d]> s_created) ∧
        prop d "id" = VString "u2" ∧ prop d "id" ≠ VString EmptyString ∧
        prop (spread (defaults "u1" t0) ∅) "id" ≠ prop d "id" ∧
        one_per_id s_created ∧ one_per_id (<[VString "u2" := d]> s_created))
  ∧ (({["id" := VString "u1"]} : document) !! "id" = Some (VString "u1") ∧
     ∃ d, post_documents "u2" t1 {["id" := VString "u1"]} s_created
            = (json d, <[VString "u1" := d]> s_created) ∧
          prop d "id" = VString "u1" ∧
          <[VString "u1" := d]> s_created !! VString "u1" = Some d ∧
          size (<[VString "u1" := d]> s_created) = size s_created).
Proof.
  assert (reachable_plain s_created) as Hs.
  { apply (reachable_plain_step "u1" t0 (POST_documents ∅) ∅ reachable_plain_init).
    apply lookup_empty. }
  split.
  - split; [exact Hs|]. split; [apply s_created_lookup|].
    destruct (create_id_generated s_created "u2" t1 {["name" := VString "B"]}) as [H _].
    destruct H as (d & E & Hid & Hne & Hother & _ & H1 & H2).
    + exact Hs.
    + by apply lookup_singleton_ne.
    + discriminate.
    + apply s_created_lookup_ne. discriminate.
    + exists d. split; [exact E|]. split; [exact Hid|]. split; [exact Hne|].
      split; [exact (Hother _ _ s_created_lookup)|]. by split.
  - split; [apply lookup_singleton_eq|].
    destruct (create_id_generated s_created "u2" t1 {["id" := VString "u1"]}) as [_ H].
    destruct (H (VString "u1") (lookup_singleton_eq _ _)) as (d & E & Hid & Hl & _ & Hsize).
    exists d. split; [exact E|]. split; [exact Hid|]. split; [exact Hl|].
    apply Hsize. rewrite s_created_lookup. by eexists.
Defined.

(** C1, as the specification words it, fails: a body that carries the
    [id] of a stored record is answered with that very [id]. *)
Lemma create_id_unique_claim_fails : ¬ create_id_unique_claim.
Proof.
  intros [H _].
  assert ("u2" ≠ EmptyString) as Hu by discriminate.
  assert (VString "u2" ≠ VString "u1") as Hne by discriminate.
  destruct (H s_created _ "u2" t1 {["id" := VString "u1"]} _
              s_created_reachable Hu (s_created_lookup_ne _ Hne)
              (post_documents_eq _ _ _ _)) as [_ Hother].
  apply (Hother _ _ s_created_lookup).
  rewrite !prop_created_id. by rewrite lookup_empty, lookup_singleton_eq.
Qed.

(** C2 (as amended).  An update whose body carries no [createdAt]
    answers with, and stores, a record whose [createdAt] is that of the
    record found; a body that carries [createdAt] replaces it.  And from
    a store whose records sit under their own [id], after any sequence
    of requests whose bodies carry neither [id] nor [createdAt] (no
    create among them served with the record's identifier), a record
    still stored has the [createdAt] it had at the start. *)
Theorem update_keeps_createdAt (s : store) :
  (∀ id time body d,
     s !! VString id = Some d →
     ∃ d', put_document id time body s = (json d', <[prop d "id" := d']> s) ∧
           <[prop d "id" := d']> s !! prop d "id" = Some d' ∧
           (body !! "createdAt" = None → d' !! "createdAt" = d !! "createdAt") ∧
           (∀ v, body !! "createdAt" = Some v → d' !! "createdAt" = Some v))
  ∧ (∀ s' k d d',
       keyed_by_id s → s !! k = Some d → plain_steps k s s' → s' !! k = Some d' →
       d' !! "createdAt" = d !! "createdAt").
Proof.
  split.
  - intros id time body d Hd. exists (merged d body time).
    rewrite (put_document_found _ _ _ _ _ Hd). split; [done|].
    split; [apply lookup_insert_eq|].
    rewrite lookup_merged, decide_False by done.
    split.
    + by intros ->.
    + by intros v ->.
  - intros s' k d d' Hs Hd Hsteps. revert d'.
    induction Hsteps as [s|uuid time r s s' Hsteps IH Hid Hc Hu]; intros d' Hd'.
    + congruence.
    + destruct (step_lookup_createdAt uuid time r s' k d'
                  (plain_steps_keyed _ _ _ Hsteps Hs) Hid Hc Hu Hd') as (d'' & Hd'' & E).
      rewrite E. by apply IH.
Qed.

Lemma update_keeps_createdAt_witness :
  (s_created !! VString "u1" = Some (spread (defaults "u1" t0) ∅) ∧
   ∃ d', put_document "u1" t1 {["status" := VString "authenticated"]} s_created =
           (json d', <[prop (spread (defaults "u1" t0) ∅) "id" := d']> s_created) ∧
         d' !! "createdAt" = spread (defaults "u1" t0) ∅ !! "createdAt")
  ∧ (keyed_by_id s_created ∧
     plain_steps (VString "u1") s_created
       (handle "u2" t1 (PUT_document "u1" {["status" := VString "authenticated"]})
          s_created).2 ∧
     ∀ d', (handle "u2" t1 (PUT_document "u1" {["status" := VString "authenticated"]})
              s_created).2 !! VString "u1" = Some d' →
           d' !! "createdAt" = spread (defaults "u1" t0) ∅ !! "createdAt").
Proof.
  assert (keyed_by_id s_created) as Hkeyed.
  { apply reachable_plain_keyed.
    apply (reachable_plain_step "u1" t0 (POST_documents ∅) ∅ reachable_plain_init).
    apply lookup_empty. }
  assert (plain_steps (VString "u1") s_created
            (handle "u2" t1 (PUT_document "u1" {["status" := VString "authenticated"]})
               s_created).2) as Hsteps.
  { apply plain_steps_step; [apply plain_steps_refl| | |discriminate];
      by apply lookup_singleton_ne. }
  destruct (update_keeps_createdAt s_created) as [Hone Hmany].
  split.
  - split; [apply s_created_lookup|].
    destruct (Hone "u1" t1 {["status" := VString "authenticated"]} _ s_created_lookup)
      as (d' & E & _ & Hkeep & _).
    exists d'. split; [exact E|]. apply Hkeep. by apply lookup_singleton_ne.
  - split; [exact Hkeyed|]. split; [exact Hsteps|].
    intros d' Hd'. exact (Hmany _ _ _ _ Hkeyed s_created_lookup Hsteps Hd').
Defined.

(** C2, as the specification words it, fails: a body that carries
    [createdAt] overwrites it. *)
Lemma createdAt_immutable_claim_fails : ¬ createdAt_immutable_claim.
Proof.
  intros H.
  specialize (H s_created _ "u1" t1 {["createdAt" := VString "1970"]} _ _
                s_created_reachable s_created_lookup
                (put_document_found _ _ _ _ _ s_created_lookup)).
  unfold prop in H. rewrite lookup_merged, decide_False in H by done.
  rewrite lookup_singleton_eq, lookup_spread, lookup_empty, defaults_createdAt in H.
  discriminate H.
Qed.

(** C3: the update merges as the specification says, but the merged
    record is stored under the [id] of the record found, not under the
    route's [id].  In the state [s_renamed] the update of [u1] answers
    200 with the merged record, stores it under [u9], and leaves the
    record under [u1] as it was, so that a read of [u1] is stale. *)
Theorem update_stored_under_record_id :
  reachable s_renamed ∧
  ∃ old new s',
    s_renamed !! VString "u1" = Some old ∧
    put_document "u1" t2 {["status" := VString "authenticated"]} s_renamed = (json new, s') ∧
    new = merged old {["status" := VString "authenticated"]} t2 ∧
    new !! "status" = Some (VString "authenticated") ∧
    s' !! VString "u9" = Some new ∧
    s' !! VString "u1" = Some old ∧
    get_document "u1" s' = (json old, s') ∧
    old !! "status" = Some (VString "pending").
Proof.
  split; [apply s_renamed_reachable|].
  eexists _, _, _. split; [apply s_renamed_lookup|].
  split; [apply (put_document_found _ _ _ _ _ s_renamed_lookup)|].
  rewrite renamed_id.
  assert (∀ (new : document),
    <[VString "u9" := new]> s_renamed !! VString "u1" =
      Some (merged (spread (defaults "u1" t0) ∅) {["id" := VString "u9"]} t1)) as Hold.
  { intros new. rewrite lookup_insert_ne by discriminate. apply s_renamed_lookup. }
  split; [done|]. split.
  { rewrite lookup_merged, decide_False by done. by rewrite lookup_singleton_eq. }
  split; [apply lookup_insert_eq|]. split; [apply Hold|]. split.
  { unfold get_document. by rewrite Hold. }
  rewrite lookup_merged, decide_False by done.
  rewrite lookup_singleton_ne by done.
  by rewrite lookup_spread, lookup_empty, defaults_status.
Qed.

(** C4.  The record a create stores has [status] ["pending"] when the
    body carries no [status], and the body's [status] when it does. *)
Theorem create_status (s : store) uuid time body :
  ∃ d, post_documents uuid time body s = (json d, <[prop d "id" := d]> s) ∧
       <[prop d "id" := d]> s !! prop d "id" = Some d ∧
       (body !! "status" = None → d !! "status" = Some (VString "pending")) ∧
       (∀ v, body !! "status" = Some v → d !! "status" = Some v).
Proof.
  exists (spread (defaults uuid time) body). split; [apply post_documents_eq|].
  split; [apply lookup_insert_eq|].
  rewrite lookup_spread, defaults_status. split.
  - by intros ->.
  - by intros v ->.
Qed.

Lemma create_status_witness :
  ∃ d, post_documents "u1" t0 {["status" := VString "legalized"]} ∅ =
         (json d, <[prop d "id" := d]> ∅) ∧
       d !! "status" = Some (VString "legalized").
Proof.
  destruct (create_status ∅ "u1" t0 {["status" := VString "legalized"]})
    as (d & E & _ & _ & H).
  exists d. split; [exact E|]. apply H. apply lookup_singleton_eq.
Defined.

(** C5 (as amended).  A get of the non-empty string [id] in the create
    response, right after the create, answers with the record of the
    create response; its [updatedAt] is null when the body carries no
    [updatedAt] and is the value the body supplied otherwise, and its
    [id] is the generated one when the body carries no [id]. *)
Theorem create_then_get (s : store) uuid time body :
  ∃ d s', post_documents uuid time body s = (json d, s') ∧
          (∀ id, id ≠ EmptyString → prop d "id" = VString id →
                 get_document id s' = (json d, s')) ∧
          (body !! "updatedAt" = None → d !! "updatedAt" = Some VNull) ∧
          (∀ v, body !! "updatedAt" = Some v → d !! "updatedAt" = Some v) ∧
          (body !! "id" = None → prop d "id" = VString uuid).
Proof.
  eexists _, _. split; [apply post_documents_eq|]. split; [|split; [|split]].
  - intros id _ Hid. unfold get_document. by rewrite Hid, lookup_insert_eq.
  - intros Hb. by rewrite lookup_spread, Hb, defaults_updatedAt.
  - intros v Hb. by rewrite lookup_spread, Hb.
  - intros Hb. by rewrite prop_created_id, Hb.
Qed.

Lemma create_then_get_witness :
  (∃ d s', post_documents "u2" t1 {["name" := VString "A"]} s_created = (json d, s') ∧
           get_document "u2" s' = (json d, s') ∧ d !! "updatedAt" = Some VNull)
  ∧ (∃ d s', post_documents "u2" t1 {["updatedAt" := VString "2020"]} s_created = (json d, s') ∧
             get_document "u2" s' = (json d, s') ∧
             d !! "updatedAt" = Some (VString "2020")).
Proof.
  split.
  - destruct (create_then_get s_created "u2" t1 {["name" := VString "A"]})
      as (d & s' & E & Hget & Hnull & _ & Hid).
    exists d, s'. split; [exact E|]. split.
    + apply Hget; [discriminate|]. apply Hid. by apply lookup_singleton_ne.
    + apply Hnull. by apply lookup_singleton_ne.
  - destruct (create_then_get s_created "u2" t1 {["updatedAt" := VString "2020"]})
      as (d & s' & E & Hget & _ & Hkeep & Hid).
    exists d, s'. split; [exact E|]. split.
    + apply Hget; [discriminate|]. apply Hid. by apply lookup_singleton_ne.
    + apply Hkeep. apply lookup_singleton_eq.
Defined.

(** C5, as the specification words it, fails: a body that carries
    [updatedAt] keeps it. *)
Lemma create_then_get_claim_fails : ¬ create_then_get_claim.
Proof.
  intros H.
  destruct (H ∅ _ "u1" t0 {["updatedAt" := VString "2020"]} _ "u1"
              (post_documents_eq _ _ _ _)) as [_ Hupd].
  - rewrite prop_created_id. by rewrite lookup_singleton_ne.
  - unfold prop in Hupd. rewrite lookup_spread, lookup_singleton_eq in Hupd.
    discriminate Hupd.
Qed.

(** C6.  The same update, served twice in a row on a record that
    exists, succeeds both times, and the two records sent agree on every
    property but [updatedAt], which holds the date of each request. *)
Theorem update_twice (s : store) id body time1 time2 d :
  s !! VString id = Some d →
  ∃ d1 d2 s1 s2,
    put_document id time1 body s = (json d1, s1) ∧
    put_document id time2 body s1 = (json d2, s2) ∧
    (∀ p : string, p ≠ "updatedAt" → d1 !! p = d2 !! p) ∧
    d1 !! "updatedAt" = Some (getCurrentDate time1) ∧
    d2 !! "updatedAt" = Some (getCurrentDate time2).
Proof.
  intros Hd. rewrite (put_document_found _ _ _ _ _ Hd).
  destruct (decide (prop d "id" = VString id)) as [Hid|Hid].
  - (* the first update replaced the record under [id] *)
    assert (<[prop d "id" := merged d body time1]> s !! VString id
            = Some (merged d body time1)) as H1.
    { rewrite Hid. apply lookup_insert_eq. }
    eexists _, _, _, _. split; [done|].
    split; [apply (put_document_found _ _ _ _ _ H1)|].
    split; [|split].
    + intros p Hp. rewrite !lookup_merged, !decide_False by done.
      by destruct (body !! p).
    + by rewrite lookup_merged, decide_True.
    + by rewrite lookup_merged, decide_True.
  - (* the first update went under another key: [id] still holds [d] *)
    assert (<[prop d "id" := merged d body time1]> s !! VString id = Some d) as H1.
    { by rewrite lookup_insert_ne. }
    eexists _, _, _, _. split; [done|].
    split; [apply (put_document_found _ _ _ _ _ H1)|].
    split; [|split].
    + intros p Hp. by rewrite !lookup_merged, !decide_False.
    + by rewrite lookup_merged, decide_True.
    + by rewrite lookup_merged, decide_True.
Qed.

Lemma update_twice_witness :
  s_created !! VString "u1" = Some (spread (defaults "u1" t0) ∅) ∧
  ∃ d1 d2 s1 s2,
    put_document "u1" t1 {["status" := VString "authenticated"]} s_created = (json d1, s1) ∧
    put_document "u1" t2 {["status" := VString "authenticated"]} s1 = (json d2, s2) ∧
    (∀ p : string, p ≠ "updatedAt" → d1 !! p = d2 !! p) ∧
    d1 !! "updatedAt" = Some (getCurrentDate t1) ∧
    d2 !! "updatedAt" = Some (getCurrentDate t2).
Proof.
  split; [apply s_created_lookup|].
  apply (update_twice s_created "u1" _ t1 t2 _ s_created_lookup).
Defined.

(** C7.  An update of an [id] under which nothing is stored answers
    400 with the not-found text, and the store is the one it was. *)
Theorem update_missing (s : store) id time body :
  s !! VString id = None →
  put_document id time body s =
    (status_send 400 ("Couldn't update document with id=" ++ id ++ ". Not found."), s)
  ∧ client_error (put_document id time body s).1
  ∧ (put_document id time body s).2 = s.
Proof.
  intros Hd. rewrite (put_document_missing _ _ _ _ Hd).
  split; [done|]. split; [|done]. unfold client_error. simpl. lia.
Qed.

Lemma update_missing_witness :
  s_created !! VString "u7" = None ∧
  put_document "u7" t1 {["status" := VString "authenticated"]} s_created =
    (status_send 400 "Couldn't update document with id=u7. Not found.", s_created)
  ∧ client_error (put_document "u7" t1 {["status" := VString "authenticated"]} s_created).1
  ∧ (put_document "u7" t1 {["status" := VString "authenticated"]} s_created).2 = s_created.
Proof.
  assert (VString "u7" ≠ VString "u1") as Hne by discriminate.
  split; [by apply s_created_lookup_ne|].
  apply (update_missing s_created "u7" t1). by apply s_created_lookup_ne.
Defined.

(** C8.  A delete of an [id] under which a record is stored answers
    with that record as it was, and removes it and nothing else: a get
    of the same [id] right after answers 404.  A delete of an [id] under
    which nothing is stored answers 400 and leaves the store alone. *)
Theorem delete_document_spec (s : store) id :
  (∀ d, s !! VString id = Some d →
     delete_document id s = (json d, delete (VString id) s) ∧
     delete (VString id) s !! VString id = None ∧
     (∀ k, k ≠ VString id → delete (VString id) s !! k = s !! k) ∧
     get_document id (delete (VString id) s) =
       (status_send 404 ("Document with id=" ++ id ++ " not found."), delete (VString id) s))
  ∧ (s !! VString id = None →
     delete_document id s =
       (status_send 400 ("Couldn't delete document with id=" ++ id ++ ". Not found."), s)
     ∧ client_error (delete_document id s).1).
Proof.
  split.
  - intros d Hd. unfold delete_document, get_document. rewrite Hd, lookup_delete_eq.
    repeat split. intros k Hk. by rewrite lookup_delete_ne.
  - intros Hd. unfold delete_document. rewrite Hd. split; [done|].
    unfold client_error. simpl. lia.
Qed.

Lemma delete_document_spec_witness :
  (s_created !! VString "u1" = Some (spread (defaults "u1" t0) ∅) ∧
   delete_document "u1" s_created =
     (json (spread (defaults "u1" t0) ∅), delete (VString "u1") s_created) ∧
   get_document "u1" (delete (VString "u1") s_created) =
     (status_send 404 "Document with id=u1 not found.", delete (VString "u1") s_created))
  ∧ ((∅ : store) !! VString "u1" = None ∧
     delete_document "u1" ∅ =
       (status_send 400 "Couldn't delete document with id=u1. Not found.", ∅)).
Proof.
  split.
  - destruct (delete_document_spec s_created "u1") as [H _].
    destruct (H _ s_created_lookup) as (E & _ & _ & G).
    split; [apply s_created_lookup|]. split; [exact E|exact G].
  - destruct (delete_document_spec ∅ "u1") as [_ H].
    split; [apply lookup_empty|]. apply H. apply lookup_empty.
Defined.

(** C10: an update that succeeds can add a key.  In the state
    [s_renamed], whose only key is [u1], the update of [u1] with an
    empty body answers 200 and the store then has the keys [u1] and
    [u9]: the merged record went under the [id] of the record found. *)
Theorem update_adds_key :
  reachable s_renamed ∧ dom s_renamed = {[VString "u1"]} ∧
  status_of (put_document "u1" t2 ∅ s_renamed).1 = 200 ∧
  dom (put_document "u1" t2 ∅ s_renamed).2 = {[VString "u1"; VString "u9"]} ∧
  dom (put_document "u1" t2 ∅ s_renamed).2 ≠ dom s_renamed.
Proof.
  assert (dom s_renamed = ({[VString "u1"]} : gset value)) as Hdom.
  { apply set_eq. intros k. rewrite elem_of_dom, elem_of_singleton. split.
    - intros [d Hk]. destruct (decide (k = VString "u1")) as [|Hne]; [done|].
      by rewrite (s_renamed_lookup_ne _ Hne) in Hk.
    - intros ->. rewrite s_renamed_lookup. by eexists. }
  rewrite (put_document_found _ _ _ _ _ s_renamed_lookup), renamed_id. cbn [fst snd].
  split; [apply s_renamed_reachable|]. split; [done|]. split; [done|].
  rewrite dom_insert_L, Hdom. split; [set_solver|].
  intros E. assert (VString "u9" ∈ ({[VString "u1"]} : gset value)) as Hin.
  { rewrite <- E. set_solver. }
  apply elem_of_singleton in Hin. discriminate Hin.
Qed.



(** ** Further properties of the routes *)

(** X1.  A create writes one entry: the record of the response, under
    the [id] of that record.  Every other key holds what it held, and
    the keys of the store are the old ones and that one: the store
    grows by one record when that [id] was free, and a record already
    stored under it is replaced without an error. *)
Theorem create_frame (s : store) uuid time body :
  ∃ d, post_documents uuid time body s = (json d, <[prop d "id" := d]> s) ∧
       (∀ k, k ≠ prop d "id" → <[prop d "id" := d]> s !! k = s !! k) ∧
       dom (<[prop d "id" := d]> s) = {[prop d "id"]} ∪ dom s ∧
       (s !! prop d "id" = None → size (<[prop d "id" := d]> s) = S (size s)) ∧
       (is_Some (s !! prop d "id") → size (<[prop d "id" := d]> s) = size s).
Proof.
  exists (spread (defaults uuid time) body). split; [apply post_documents_eq|].
  set (d := spread (defaults uuid time) body). repeat split.
  - intros k Hk. by rewrite lookup_insert_ne.
  - apply dom_insert_L.
  - intros E. by apply map_size_insert_None.
  - intros E. by apply map_size_insert_Some.
Qed.

Lemma create_frame_witness :
  ∃ d, post_documents "u2" t1 ∅ s_created = (json d, <[prop d "id" := d]> s_created) ∧
       size (<[prop d "id" := d]> s_created) = S (size s_created).
Proof.
  destruct (create_frame s_created "u2" t1 ∅) as (d & E & _ & _ & Hsize & _).
  exists d. split; [exact E|]. apply Hsize.
  rewrite post_documents_eq in E. injection E as Ed _. rewrite <- Ed.
  rewrite prop_created_id, lookup_empty. apply s_created_lookup_ne. discriminate.
Defined.

(** X2.  A create served with an identifier that is not yet a key, for
    a body that carries no [id], is undone by a delete of that
    identifier: the delete answers with the created record and the
    store is the one before the create. *)
Theorem create_then_delete (s : store) uuid time body :
  body !! "id" = None → s !! VString uuid = None →
  ∃ d s', post_documents uuid time body s = (json d, s') ∧
          delete_document uuid s' = (json d, s).
Proof.
  intros Hb Hfresh. eexists _, _. split; [apply post_documents_eq|].
  rewrite prop_created_id, Hb. unfold delete_document.
  rewrite lookup_insert_eq. by rewrite delete_insert_id.
Qed.

Lemma create_then_delete_witness :
  ∃ d s', post_documents "u2" t1 {["name" := VString "B"]} s_created = (json d, s') ∧
          delete_document "u2" s' = (json d, s_created).
Proof.
  apply (create_then_delete s_created "u2" t1).
  - by apply lookup_singleton_ne.
  - apply s_created_lookup_ne. discriminate.
Defined.

(** X3.  An update of a record that sits under its own [id]: a get of
    that [id] right after answers with the record the update sent, every
    other entry of the store is what it was, and the store has the same
    keys and the same size. *)
Theorem update_then_get (s : store) id time body d :
  s !! VString id = Some d → prop d "id" = VString id →
  ∃ d' s', put_document id time body s = (json d', s') ∧
           get_document id s' = (json d', s') ∧
           (∀ k, k ≠ VString id → s' !! k = s !! k) ∧
           dom s' = dom s ∧ size s' = size s.
Proof.
  intros Hd Hid. eexists _, _.
  rewrite (put_document_found _ _ _ _ _ Hd), Hid. split; [done|].
  split; [|split; [|split]].
  - unfold get_document. by rewrite lookup_insert_eq.
  - intros k Hk. by rewrite lookup_insert_ne.
  - apply dom_insert_lookup_L. by rewrite Hd.
  - apply map_size_insert_Some. by rewrite Hd.
Qed.

Lemma update_then_get_witness :
  ∃ d' s', put_document "u1" t1 {["status" := VString "legalized"]} s_created = (json d', s') ∧
           get_document "u1" s' = (json d', s') ∧ dom s' = dom s_created.
Proof.
  destruct (update_then_get s_created "u1" t1 {["status" := VString "legalized"]} _
              s_created_lookup) as (d' & s' & E & G & _ & D & _).
  - by rewrite prop_created_id, lookup_empty.
  - exists d', s'. done.
Defined.

(** X4.  What an update sends, for any record found and any body: the
    status is 200; [updatedAt] is the date of the request, also when
    the body carries an [updatedAt] of its own; every other property is
    the body's when the body has it and the record's otherwise; and the
    properties of the result are those of the record, those of the body
    and [updatedAt]. *)
Theorem update_merge (s : store) id time body d :
  s !! VString id = Some d →
  ∃ d' s', put_document id time body s = (json d', s') ∧
           status_of (put_document id time body s).1 = 200 ∧
           d' !! "updatedAt" = Some (getCurrentDate time) ∧
           (∀ (p : string) v, p ≠ "updatedAt" → body !! p = Some v → d' !! p = Some v) ∧
           (∀ p : string, p ≠ "updatedAt" → body !! p = None → d' !! p = d !! p) ∧
           dom d' = {["updatedAt"]} ∪ dom body ∪ dom d.
Proof.
  intros Hd. eexists _, _. rewrite (put_document_found _ _ _ _ _ Hd).
  split; [done|]. split; [done|]. split; [|split; [|split]].
  - by rewrite lookup_merged, decide_True.
  - intros p v Hp Hb. by rewrite lookup_merged, decide_False, Hb.
  - intros p Hp Hb. by rewrite lookup_merged, decide_False, Hb.
  - unfold merged, spread. rewrite dom_insert_L, dom_union_L. apply (assoc_L (∪)).
Qed.

Lemma update_merge_witness :
  ∃ d' s', put_document "u1" t1 {["updatedAt" := VString "never"]} s_created = (json d', s') ∧
           d' !! "updatedAt" = Some (getCurrentDate t1) ∧
           d' !! "status" = Some (VString "pending").
Proof.
  destruct (update_merge s_created "u1" t1 {["updatedAt" := VString "never"]} _
              s_created_lookup) as (d' & s' & E & _ & U & _ & K & _).
  exists d', s'. split; [exact E|]. split; [exact U|].
  rewrite K by done. by rewrite lookup_spread, lookup_empty, defaults_status.
Defined.

(** X5.  A second delete of the same [id], right after the first,
    answers 400 and changes nothing, whether or not the first one found a
    record; after the first delete nothing is stored under the [id] and
    every other key holds what it held. *)
Theorem delete_twice (s : store) id :
  delete_document id (delete_document id s).2 =
    (status_send 400 ("Couldn't delete document with id=" ++ id ++ ". Not found."),
     (delete_document id s).2) ∧
  (delete_document id s).2 !! VString id = None ∧
  (∀ k, k ≠ VString id → (delete_document id s).2 !! k = s !! k).
Proof.
  assert ((delete_document id s).2 !! VString id = None) as Hgone.
  { unfold delete_document. destruct (s !! VString id) eqn:E; cbn [snd]; [|done].
    apply lookup_delete_eq. }
  split; [|split; [done|]].
  - unfold delete_document at 1. by rewrite Hgone.
  - intros k Hk. unfold delete_document.
    destruct (s !! VString id); cbn [snd]; [|done]. by rewrite lookup_delete_ne.
Qed.

(** X6.  The list route leaves the store alone and sends the stored
    records, each of them and nothing else: as many as the store has
    keys, and none when the store is empty. *)
Theorem list_documents (s : store) :
  ∃ ds, get_documents s = (json_all ds, s) ∧
        length ds = size s ∧
        (∀ d, d ∈ ds ↔ ∃ k, s !! k = Some d) ∧
        (s = ∅ → ds = []).
Proof.
  exists ((map_to_list s).*2). split; [done|]. split; [|split].
  - by rewrite length_fmap, length_map_to_list.
  - intros d. rewrite list_elem_of_fmap. split.
    + intros ([k d'] & -> & Hin). exists k. by apply elem_of_map_to_list.
    + intros [k Hk]. exists (k, d). split; [done|]. by apply elem_of_map_to_list.
  - intros ->. by rewrite map_to_list_empty.
Qed.

Lemma list_documents_witness :
  ∃ ds, get_documents s_created = (json_all ds, s_created) ∧
        spread (defaults "u1" t0) ∅ ∈ ds.
Proof.
  destruct (list_documents s_created) as (ds & E & _ & Hin & _).
  exists ds. split; [exact E|]. apply Hin. exists (VString "u1"). apply s_created_lookup.
Defined.

(** X7.  The record a create sends and stores: every property of the
    body is in it with the body's value, [id], [createdAt] and
    [updatedAt] are the generated identifier, the date of the request
    and null where the body leaves them out, and it has no property
    besides those of the body and the four generated ones. *)
Theorem create_overlay (s : store) uuid time body :
  ∃ d s', post_documents uuid time body s = (json d, s') ∧
          s' !! prop d "id" = Some d ∧
          (∀ (p : string) v, body !! p = Some v → d !! p = Some v) ∧
          (body !! "id" = None → d !! "id" = Some (VString uuid)) ∧
          (body !! "createdAt" = None → d !! "createdAt" = Some (getCurrentDate time)) ∧
          (body !! "updatedAt" = None → d !! "updatedAt" = Some VNull) ∧
          dom d = dom body ∪ {["id"; "createdAt"; "updatedAt"; "status"]}.
Proof.
  eexists _, _. split; [apply post_documents_eq|].
  split; [apply lookup_insert_eq|].
  split; [|split; [|split; [|split]]].
  - intros p v Hb. by rewrite lookup_spread, Hb.
  - intros Hb. by rewrite lookup_spread, Hb, defaults_id.
  - intros Hb. by rewrite lookup_spread, Hb, defaults_createdAt.
  - intros Hb. by rewrite lookup_spread, Hb, defaults_updatedAt.
  - unfold spread, defaults. rewrite dom_union_L, !dom_insert_L, dom_empty_L.
    apply set_eq. intros p. rewrite !elem_of_union, !elem_of_singleton.
    rewrite elem_of_empty. tauto.
Qed.

Lemma create_overlay_witness :
  ∃ d s', post_documents "u1" t0 {["createdAt" := VString "1999"]} ∅ = (json d, s') ∧
          d !! "createdAt" = Some (VString "1999") ∧
          d !! "id" = Some (VString "u1").
Proof.
  destruct (create_overlay ∅ "u1" t0 {["createdAt" := VString "1999"]})
    as (d & s' & E & _ & Hbody & Hid & _).
  exists d, s'. split; [exact E|]. split.
  - apply Hbody. apply lookup_singleton_eq.
  - apply Hid. by apply lookup_singleton_ne.
Defined.

(** X8.  In every state the service can reach, whatever the bodies of
    the requests were, each stored record has an [id], a [createdAt],
    an [updatedAt] and a [status] property. *)
Theorem reachable_generated_props s :
  reachable s → ∀ k d, s !! k = Some d → has_generated_props d.
Proof.
  induction 1 as [|uuid time r s _ IH]; intros k d.
  { by rewrite lookup_empty. }
  destruct r as [body| |id|id body|id]; unfold handle.
  - rewrite post_documents_eq. cbn [snd]. rewrite lookup_insert. case_decide; [|by apply IH].
    intros [= <-]. unfold has_generated_props.
    rewrite !lookup_spread, defaults_id, defaults_createdAt, defaults_updatedAt,
      defaults_status.
    repeat split; by case_match.
  - apply IH.
  - unfold get_document. destruct (s !! VString id); apply IH.
  - destruct (s !! VString id) as [d0|] eqn:E.
    + rewrite (put_document_found _ _ _ _ _ E). cbn [snd].
      rewrite lookup_insert. case_decide; [|by apply IH].
      intros [= <-]. destruct (IH _ _ E) as (Hi & Hc & Hu & Hs).
      unfold has_generated_props. rewrite !lookup_merged.
      repeat split; case_decide; try done; by case_match.
    + rewrite (put_document_missing _ _ _ _ E). apply IH.
  - unfold delete_document. destruct (s !! VString id); cbn [snd]; [|apply IH].
    rewrite lookup_delete. case_decide; [done|]. apply IH.
Qed.

Lemma reachable_generated_props_witness :
  reachable s_renamed ∧
  has_generated_props (merged (spread (defaults "u1" t0) ∅) {["id" := VString "u9"]} t1).
Proof.
  split; [apply s_renamed_reachable|].
  apply (reachable_generated_props s_renamed s_renamed_reachable (VString "u1")).
  apply s_renamed_lookup.
Defined.

(** X9.  The status of a response is 200, 400 or 404; a request that is
    not answered with 200 leaves the store as it was, and so does every
    GET. *)
Theorem errors_and_reads_leave_store (s : store) uuid time r :
  (status_of (handle uuid time r s).1 = 200 ∨
   status_of (handle uuid time r s).1 = 400 ∨
   status_of (handle uuid time r s).1 = 404) ∧
  (status_of (handle uuid time r s).1 ≠ 200 → (handle uuid time r s).2 = s) ∧
  (r = GET_documents ∨ (∃ id, r = GET_document id) → (handle uuid time r s).2 = s).
Proof.
  destruct r as [body| |id|id body|id]; unfold handle.
  - rewrite post_documents_eq. cbn [fst snd status_of]. split; [by left|].
    split; [done|]. by intros [|[? ?]].
  - unfold get_documents. cbn [fst snd status_of]. split; [by left|]. done.
  - unfold get_document. destruct (s !! VString id); cbn [fst snd status_of].
    + split; [by left|]. done.
    + split; [by right; right|]. done.
  - destruct (s !! VString id) as [d|] eqn:E.
    + rewrite (put_document_found _ _ _ _ _ E). cbn [fst snd status_of].
      split; [by left|]. split; [done|]. by intros [|[? ?]].
    + rewrite (put_document_missing _ _ _ _ E). cbn [fst snd status_of].
      split; [by right; left|]. done.
  - unfold delete_document. destruct (s !! VString id); cbn [fst snd status_of].
    + split; [by left|]. split; [done|]. by intros [|[? ?]].
    + split; [by right; left|]. done.
Qed.

Lemma errors_and_reads_leave_store_witness :
  status_of (handle "u2" t1 (DELETE_document "u7") s_created).1 ≠ 200 ∧
  (handle "u2" t1 (DELETE_document "u7") s_created).2 = s_created.
Proof.
  assert (status_of (handle "u2" t1 (DELETE_document "u7") s_created).1 ≠ 200) as Hne.
  { unfold handle, delete_document.
    rewrite s_created_lookup_ne by discriminate. discriminate. }
  split; [exact Hne|].
  destruct (errors_and_reads_leave_store s_created "u2" t1 (DELETE_document "u7"))
    as (_ & Hkeep & _).
  exact (Hkeep Hne).
Defined.

(** X10.  No request removes a record except the delete of the [id] it
    is stored under: a key of the store is still a key after any other
    request. *)
Theorem only_delete_removes (s : store) uuid time r k :
  is_Some (s !! k) → (∀ id, r = DELETE_document id → k ≠ VString id) →
  is_Some ((handle uuid time r s).2 !! k).
Proof.
  intros Hk Hr. destruct r as [body| |id|id body|id]; unfold handle.
  - rewrite post_documents_eq. cbn [snd]. rewrite lookup_insert. by case_decide.
  - done.
  - unfold get_document. by destruct (s !! VString id).
  - destruct (s !! VString id) as [d|] eqn:E.
    + rewrite (put_document_found _ _ _ _ _ E). cbn [snd].
      rewrite lookup_insert. by case_decide.
    + by rewrite (put_document_missing _ _ _ _ E).
  - unfold delete_document. destruct (s !! VString id); cbn [snd]; [|done].
    rewrite lookup_delete_ne; [done|]. intros E. by apply (Hr id).
Qed.

Lemma only_delete_removes_witness :
  is_Some (s_created !! VString "u1") ∧
  is_Some ((handle "u2" t1 (POST_documents {["id" := VString "u1"]}) s_created).2
             !! VString "u1").
Proof.
  assert (is_Some (s_created !! VString "u1")) as Hk.
  { rewrite s_created_lookup. by eexists. }
  split; [exact Hk|].
  apply (only_delete_removes s_created "u2" t1 _ _ Hk). intros id. discriminate.
Defined.

(** X11.  While the bodies of the requests carry no [id], every key of
    the store is a string and the record under it has that string as
    its [id]. *)
Theorem plain_keys_are_ids s :
  reachable_plain s →
  ∀ k d, s !! k = Some d → ∃ id, k = VString id ∧ prop d "id" = VString id.
Proof.
  induction 1 as [|uuid time r s Hs IH Hb]; intros k d.
  { by rewrite lookup_empty. }
  pose proof (reachable_plain_keyed s Hs) as Hkeyed.
  destruct r as [body| |id|id body|id]; simpl in Hb; unfold handle.
  - rewrite post_documents_eq. cbn [snd]. rewrite prop_created_id, Hb.
    rewrite lookup_insert. case_decide; [|by apply IH].
    intros [= <-]. exists uuid. split; [done|]. by rewrite prop_created_id, Hb.
  - apply IH.
  - unfold get_document. destruct (s !! VString id); apply IH.
  - destruct (s !! VString id) as [d0|] eqn:E.
    + rewrite (put_document_found _ _ _ _ _ E). cbn [snd]. rewrite (Hkeyed _ _ E).
      rewrite lookup_insert. case_decide; [|by apply IH].
      intros [= <-]. exists id. split; [done|].
      rewrite (prop_merged_id _ _ _ Hb). by apply Hkeyed.
    + rewrite (put_document_missing _ _ _ _ E). apply IH.
  - unfold delete_document. destruct (s !! VString id); cbn [snd]; [|apply IH].
    rewrite lookup_delete. case_decide; [done|]. apply IH.
Qed.

Lemma plain_keys_are_ids_witness :
  reachable_plain s_created ∧
  ∃ id, VString "u1" = VString id ∧ prop (spread (defaults "u1" t0) ∅) "id" = VString id.
Proof.
  assert (reachable_plain s_created) as Hs.
  { apply (reachable_plain_step "u1" t0 (POST_documents ∅) ∅ reachable_plain_init).
    apply lookup_empty. }
  split; [exact Hs|]. apply (plain_keys_are_ids s_created Hs). apply s_created_lookup.
Defined.

(** X14.  No request adds more than one record to the store, and a GET
    or a DELETE adds none. *)
Theorem store_growth (s : store) uuid time r :
  (size (handle uuid time r s).2 ≤ S (size s))%nat ∧
  ((∀ body, r ≠ POST_documents body) → (∀ id body, r ≠ PUT_document id body) →
   (size (handle uuid time r s).2 ≤ size s)%nat).
Proof.
  assert (∀ (m : store) k d, (size (<[k := d]> m) ≤ S (size m))%nat) as Hins.
  { intros m k d. destruct (m !! k) eqn:E.
    - rewrite map_size_insert_Some by (by rewrite E). lia.
    - rewrite map_size_insert_None by exact E. lia. }
  destruct r as [body| |id|id body|id]; unfold handle.
  - rewrite post_documents_eq. cbn [snd]. split; [apply Hins|]. intros H _. by destruct (H body).
  - unfold get_documents. cbn [snd]. split; lia.
  - unfold get_document. destruct (s !! VString id); cbn [snd]; split; lia.
  - split; [|intros _ H; by destruct (H id body)].
    destruct (s !! VString id) as [d|] eqn:E.
    + rewrite (put_document_found _ _ _ _ _ E). cbn [snd]. apply Hins.
    + rewrite (put_document_missing _ _ _ _ E). cbn [snd]. lia.
  - unfold delete_document. destruct (s !! VString id) as [d|] eqn:E; cbn [snd]; [|split; lia].
    rewrite map_size_delete_Some by (by rewrite E). split; lia.
Qed.

Lemma store_growth_witness :
  (size (handle "u2" t1 (DELETE_document "u1") s_created).2 ≤ size s_created)%nat.
Proof.
  destruct (store_growth s_created "u2" t1 (DELETE_document "u1")) as [_ H].
  apply H; intros; discriminate.
Defined.

(** *** The clock never runs backwards through [getCurrentDate] *)

Lemma binary_round_aux_renorm mx ex lx N D k :
  represents (shr_record_of_loc mx lx) N D →
  0 ≤ k → 2 ^ (52 + k) ≤ mx < 2 ^ (53 + k) →
  -1074 ≤ ex + k → ex + k + 1 ≤ 971 →
  ∃ a, 2 ^ 52 ≤ a ≤ 2 ^ 53 ∧
       - (2 ^ k * D) ≤ 2 * (a * (2 ^ k * D) - N) ≤ 2 ^ k * D ∧
       binary_round_aux 53 1024 false mx ex lx = renorm a (ex + k).
Proof. apply binary_round_aux_spec. Qed.

(** A renormalised mantissa is a normal double. *)
Lemma renorm_normal a e :
  2 ^ 52 ≤ a ≤ 2 ^ 53 →
  ∃ n x, renorm a e = S754_finite false n x ∧ normal (Z.pos n) x ∧
         ((a < 2 ^ 53 ∧ Z.pos n = a ∧ x = e) ∨ (a = 2 ^ 53 ∧ Z.pos n = 2 ^ 52 ∧ x = e + 1)).
Proof.
  intros Ha. unfold renorm, normal. destruct (Z.ltb_spec a (2 ^ 53)) as [Hlt|Hge].
  - exists (Z.to_pos a), e. rewrite Z2Pos.id by lia. split; [done|]. split; [lia|]. left. lia.
  - exists (Z.to_pos (2 ^ 52)), (e + 1). rewrite Z2Pos.id by done.
    split; [done|]. split; [done|]. right. lia.
Qed.

(** Renormalising keeps the order. *)
Lemma renorm_mono a1 e1 a2 e2 n1 x1 n2 x2 :
  2 ^ 52 ≤ a1 ≤ 2 ^ 53 → 2 ^ 52 ≤ a2 ≤ 2 ^ 53 →
  e1 < e2 ∨ (e1 = e2 ∧ a1 ≤ a2) →
  renorm a1 e1 = S754_finite false n1 x1 → renorm a2 e2 = S754_finite false n2 x2 →
  fle (Z.pos n1) x1 (Z.pos n2) x2.
Proof.
  intros Ha1 Ha2 Hle E1 E2.
  destruct (renorm_normal a1 e1 Ha1) as (n1' & x1' & E1' & _ & H1).
  destruct (renorm_normal a2 e2 Ha2) as (n2' & x2' & E2' & _ & H2).
  rewrite E1 in E1'. rewrite E2 in E2'.
  injection E1' as -> ->. injection E2' as -> ->.
  unfold fle. change (2 ^ 52) with 4503599627370496 in *.
  change (2 ^ 53) with 9007199254740992 in *. lia.
Qed.

Lemma Zdigits2_bounds t : 0 < t → 2 ^ (Zdigits2 t - 1) ≤ t < 2 ^ Zdigits2 t.
Proof. destruct t as [|p|p]; try lia. intros _. apply digits2_pos_bounds. Qed.

Lemma Zdigits2_mono t1 t2 : 0 < t1 ≤ t2 → Zdigits2 t1 ≤ Zdigits2 t2.
Proof.
  intros [H1 H12].
  pose proof (Zdigits2_bounds t1 H1) as [Hlo _].
  pose proof (Zdigits2_bounds t2 ltac:(lia)) as [_ Hhi].
  destruct (Z.le_gt_cases (Zdigits2 t1) (Zdigits2 t2)) as [|Hgt]; [done|].
  assert (2 ^ Zdigits2 t2 ≤ 2 ^ (Zdigits2 t1 - 1)) by (apply Z.pow_le_mono_r; lia). lia.
Qed.

(** [Number t] through its bit length [d]: the mantissa is [t] shifted
    to 53 bits, rounded when [d] is more than 53. *)
Lemma Number_renorm t :
  0 < t < 2 ^ 64 →
  1 ≤ Zdigits2 t ≤ 64 ∧
  ∃ a, 2 ^ 52 ≤ a ≤ 2 ^ 53 ∧ Num.Number t = renorm a (Zdigits2 t - 53) ∧
       (Zdigits2 t ≤ 53 → a = t * 2 ^ (53 - Zdigits2 t)) ∧
       (53 < Zdigits2 t →
        - 2 ^ (Zdigits2 t - 53) ≤ 2 * (a * 2 ^ (Zdigits2 t - 53) - t) ≤ 2 ^ (Zdigits2 t - 53)).
Proof.
  intros [Ht0 Ht]. destruct t as [|p|p]; try lia.
  pose proof (digits2_pos_bounds p) as Hd.
  cbn [Zdigits2]. set (d := Z.pos (digits2_pos p)) in *.
  assert (1 ≤ d) as Hd1 by lia.
  assert (d ≤ 64) as Hd64.
  { destruct (Z.le_gt_cases d 64) as [|Hgt]; [done|].
    assert (2 ^ 64 ≤ 2 ^ (d - 1)) by (apply Z.pow_le_mono_r; lia). lia. }
  split; [lia|].
  unfold Num.Number, Num.prec, Num.emax, binary_normalize, binary_round, shl_align. fold d.
  rewrite fexp_normal by lia.
  destruct (d + 0 - 53 - 0) as [|q|q] eqn:Eq.
  - assert (d = 53) as Hd53 by lia. rewrite Hd53 in Hd. change (53 - 1) with 52 in Hd.
    destruct (binary_round_aux_renorm (Z.pos p) 0 loc_Exact (Z.pos p) 1 0)
      as (a & Ha & Hbd & ->); [by apply represents_exact | lia | | lia | lia |].
    { change (52 + 0) with 52. change (53 + 0) with 53. lia. }
    change (2 ^ 0 * 1) with 1 in Hbd. assert (a = Z.pos p) as -> by lia.
    exists (Z.pos p). split; [lia|]. split; [f_equal; lia|]. split; [|lia].
    intros _. rewrite Hd53. change (2 ^ (53 - 53)) with 1. lia.
  - assert (d = 53 + Z.pos q) as Hdq by lia.
    destruct (binary_round_aux_renorm (Z.pos p) 0 loc_Exact (Z.pos p) 1 (Z.pos q))
      as (a & Ha & Hbd & ->); [by apply represents_exact | lia | | lia | lia |].
    { rewrite Hdq in Hd. by replace (53 + Z.pos q - 1) with (52 + Z.pos q) in Hd by lia. }
    rewrite Z.mul_1_r in Hbd.
    exists a. split; [done|]. split; [f_equal; lia|]. split; [lia|].
    intros _. by replace (d - 53) with (Z.pos q) by lia.
  - assert (d = 53 - Z.pos q) as Hdq by lia.
    assert (0 < 2 ^ Z.pos q) as Hpq by (apply Z.pow_pos_nonneg; lia).
    assert (2 ^ 52 ≤ Z.pos p * 2 ^ Z.pos q < 2 ^ 53) as Hmz.
    { rewrite Hdq in Hd.
      replace 52 with (53 - Z.pos q - 1 + Z.pos q) by lia.
      replace 53 with (53 - Z.pos q + Z.pos q) at 2 by lia.
      rewrite !Z.pow_add_r by lia. nia. }
    destruct (binary_round_aux_renorm (Z.pos (Pos.iter xO p q)) (d + 0 - 53) loc_Exact
                (Z.pos (Pos.iter xO p q)) 1 0)
      as (a & Ha & Hbd & ->); [by apply represents_exact | lia | | lia | lia |].
    { rewrite iter_xO_pow2. change (52 + 0) with 52. change (53 + 0) with 53. lia. }
    change (2 ^ 0 * 1) with 1 in Hbd.
    assert (a = Z.pos (Pos.iter xO p q)) as -> by lia.
    rewrite iter_xO_pow2 in *.
    exists (Z.pos p * 2 ^ Z.pos q). split; [lia|]. split; [f_equal; lia|]. split; [|lia].
    intros _. f_equal. f_equal. lia.
Qed.

(** [Number] keeps the order of the readings. *)
Lemma Number_mono t1 t2 n1 x1 n2 x2 :
  0 < t1 → t1 ≤ t2 → t2 < 2 ^ 64 →
  Num.Number t1 = S754_finite false n1 x1 → Num.Number t2 = S754_finite false n2 x2 →
  fle (Z.pos n1) x1 (Z.pos n2) x2.
Proof.
  intros H1 H12 H2 E1 E2.
  destruct (Z.eq_dec t1 t2) as [->|Hne].
  { rewrite E1 in E2. injection E2 as -> ->. right. lia. }
  destruct (Number_renorm t1 ltac:(lia)) as (Hd1 & a1 & Ha1 & R1 & Hs1 & Hb1).
  destruct (Number_renorm t2 ltac:(lia)) as (Hd2 & a2 & Ha2 & R2 & Hs2 & Hb2).
  pose proof (Zdigits2_mono t1 t2 ltac:(lia)) as Hdd.
  rewrite R1 in E1. rewrite R2 in E2.
  eapply renorm_mono; [exact Ha1 | exact Ha2 | | exact E1 | exact E2].
  destruct (Z.eq_dec (Zdigits2 t1) (Zdigits2 t2)) as [Ed|Nd]; [right|left; lia].
  split; [lia|]. set (d := Zdigits2 t2) in *. rewrite Ed in *.
  destruct (Z.le_gt_cases d 53) as [Hle|Hgt].
  - rewrite (Hs1 Hle), (Hs2 Hle).
    apply Z.mul_le_mono_nonneg_r; [|lia]. apply Z.pow_nonneg. lia.
  - specialize (Hb1 Hgt). specialize (Hb2 Hgt).
    set (K := 2 ^ (d - 53)) in *.
    assert (0 < K) as HK by (apply Z.pow_pos_nonneg; lia).
    destruct (Z.le_gt_cases a1 a2) as [|Hgt']; [done|].
    assert ((a2 + 1) * K ≤ a1 * K) by (apply Z.mul_le_mono_nonneg_r; lia).
    lia.
Qed.

(** The quotient by the double [1000000], as a renormalised mantissa. *)
Lemma div_million_renorm m e :
  2 ^ 52 ≤ Z.pos m < 2 ^ 53 → -52 ≤ e ≤ 12 →
  ∃ k a, 0 ≤ k ≤ 1 ∧ 2 ^ 52 ≤ a ≤ 2 ^ 53 ∧
    - (2 ^ k * 8589934592000000) ≤
      2 * (a * (2 ^ k * 8589934592000000) - Z.pos m * 2 ^ 53) ≤ 2 ^ k * 8589934592000000 ∧
    Num.div (S754_finite false m e) (Num.Number 1000000) = renorm a (e - 20 + k).
Proof. apply div_million_spec. Qed.

(** Dividing by the double [1000000] keeps the order. *)
Lemma div_million_mono m1 e1 m2 e2 n1 x1 n2 x2 :
  2 ^ 52 ≤ Z.pos m1 < 2 ^ 53 → 2 ^ 52 ≤ Z.pos m2 < 2 ^ 53 →
  -52 ≤ e1 ≤ 12 → -52 ≤ e2 ≤ 12 →
  fle (Z.pos m1) e1 (Z.pos m2) e2 →
  Num.div (S754_finite false m1 e1) (Num.Number 1000000) = S754_finite false n1 x1 →
  Num.div (S754_finite false m2 e2) (Num.Number 1000000) = S754_finite false n2 x2 →
  fle (Z.pos n1) x1 (Z.pos n2) x2.
Proof.
  intros Hm1 Hm2 He1 He2 Hle E1 E2.
  destruct (decide (m1 = m2 ∧ e1 = e2)) as [[-> ->]|Hne].
  { rewrite E1 in E2. injection E2 as -> ->. right. lia. }
  destruct (div_million_renorm m1 e1 Hm1 He1) as (k1 & a1 & Hk1 & Ha1 & Hb1 & R1).
  destruct (div_million_renorm m2 e2 Hm2 He2) as (k2 & a2 & Hk2 & Ha2 & Hb2 & R2).
  rewrite R1 in E1. rewrite R2 in E2.
  eapply renorm_mono; [exact Ha1 | exact Ha2 | | exact E1 | exact E2].
  change (2 ^ 52) with 4503599627370496 in *.
  change (2 ^ 53) with 9007199254740992 in *.
  assert (Z.pos m1 ≠ Z.pos m2 ∨ e1 ≠ e2) as Hne'.
  { destruct (Z.eq_dec e1 e2) as [->|]; [left|by right].
    intros [= ->]. by apply Hne. }
  assert (k1 = 0 ∨ k1 = 1) as [-> | ->] by lia;
    assert (k2 = 0 ∨ k2 = 1) as [-> | ->] by lia;
    change (2 ^ 0) with 1 in *; change (2 ^ 1) with 2 in *;
    unfold fle in Hle; lia.
Qed.

(** The quotient is a normal double below [2^48]. *)
Lemma div_million_normal m e :
  2 ^ 52 ≤ Z.pos m < 2 ^ 53 → -52 ≤ e ≤ 12 →
  ∃ n x, Num.div (S754_finite false m e) (Num.Number 1000000) = S754_finite false n x ∧
         2 ^ 52 ≤ Z.pos n < 2 ^ 53 ∧ -73 ≤ x ≤ -6.
Proof.
  intros Hm He.
  destruct (div_million_renorm m e Hm He) as (k & a & Hk & Ha & _ & ->).
  destruct (renorm_normal a (e - 20 + k) Ha) as (n & x & -> & Hn & Hx).
  exists n, x. split; [done|]. split; [exact Hn|]. lia.
Qed.

(** The time value of a normal double with a negative exponent. *)
Lemma TimeClip_normal n x :
  2 ^ 52 ≤ Z.pos n < 2 ^ 53 → x ≤ -6 →
  Num.TimeClip (S754_finite false n x) = Some (Z.pos n / 2 ^ (- x)).
Proof.
  intros Hn Hx.
  assert (2 ^ 6 ≤ 2 ^ (- x)) as HK by (apply Z.pow_le_mono_r; lia).
  change (2 ^ 6) with 64 in HK. change (2 ^ 53) with 9007199254740992 in Hn.
  unfold Num.TimeClip, Num.exceeds, Num.trunc.
  replace (x <? 0) with true by (symmetry; apply Z.ltb_lt; lia).
  replace (8640000000000000 * 2 ^ (- x) <? Z.pos n) with false
    by (symmetry; apply Z.ltb_ge; lia).
  cbn [cond_Zopp]. by rewrite Z.shiftl_div_pow2 by lia.
Qed.

(** Truncation keeps the order. *)
Lemma trunc_mono n1 x1 n2 x2 :
  2 ^ 52 ≤ n1 < 2 ^ 53 → 2 ^ 52 ≤ n2 < 2 ^ 53 → x1 ≤ 0 → x2 ≤ 0 →
  fle n1 x1 n2 x2 → n1 / 2 ^ (- x1) ≤ n2 / 2 ^ (- x2).
Proof.
  intros Hn1 Hn2 Hx1 Hx2 [Hlt|[-> Hle]].
  - assert (0 < 2 ^ (- x2)) as Hp2 by (apply Z.pow_pos_nonneg; lia).
    assert (0 < 2 ^ (x2 - x1)) as Hpd by (apply Z.pow_pos_nonneg; lia).
    assert (2 ^ 1 ≤ 2 ^ (x2 - x1)) as Hd2 by (apply Z.pow_le_mono_r; lia).
    change (2 ^ 1) with 2 in Hd2.
    assert (2 ^ (- x1) = 2 ^ (- x2) * 2 ^ (x2 - x1)) as ->.
    { rewrite <- Z.pow_add_r by lia. f_equal. lia. }
    rewrite <- (Z.div_mul_cancel_r n2 (2 ^ (- x2)) (2 ^ (x2 - x1))) by lia.
    apply Z.div_le_mono; [lia|].
    change (2 ^ 53) with (2 * 2 ^ 52) in Hn1.
    assert (n2 * 2 ≤ n2 * 2 ^ (x2 - x1)) by (apply Z.mul_le_mono_nonneg_l; lia).
    lia.
  - apply Z.div_le_mono; [|done]. apply Z.pow_pos_nonneg; lia.
Qed.

(** The time values of two readings of the 64-bit clock are in the
    order of the readings. *)
Lemma clock_order time1 time2 :
  0 ≤ time1 → time1 ≤ time2 → time2 < 2 ^ 64 →
  ∃ ms1 ms2,
    Num.TimeClip (Num.div (Num.Number time1) (Num.Number 1000000)) = Some ms1 ∧
    Num.TimeClip (Num.div (Num.Number time2) (Num.Number 1000000)) = Some ms2 ∧
    0 ≤ ms1 ∧ ms1 ≤ ms2.
Proof.
  intros H1 H12 H2.
  assert (∀ t, 0 < t < 2 ^ 64 →
    ∃ m e n x, Num.Number t = S754_finite false m e ∧
      2 ^ 52 ≤ Z.pos m < 2 ^ 53 ∧ -52 ≤ e ≤ 12 ∧
      Num.div (S754_finite false m e) (Num.Number 1000000) = S754_finite false n x ∧
      2 ^ 52 ≤ Z.pos n < 2 ^ 53 ∧ -73 ≤ x ≤ -6 ∧
      Num.TimeClip (S754_finite false n x) = Some (Z.pos n / 2 ^ (- x)) ∧
      0 ≤ Z.pos n / 2 ^ (- x)) as Hshape.
  { intros t Ht.
    destruct (Number_spec t Ht) as (m & e & EN & Hm & He & _).
    destruct (div_million_normal m e Hm He) as (n & x & ED & Hn & Hx).
    exists m, e, n, x. repeat split; try done; try lia.
    - apply TimeClip_normal; lia.
    - apply Z.div_pos; [lia|]. apply Z.pow_pos_nonneg; lia. }
  destruct (Z.eq_dec time2 0) as [->|Hnz2].
  { assert (time1 = 0) as -> by lia. exists 0, 0. by vm_compute. }
  destruct (Hshape time2 ltac:(lia)) as (m2 & e2 & n2 & x2 & EN2 & Hm2 & He2 & ED2 & Hn2 & Hx2 & ET2 & Hp2).
  destruct (Z.eq_dec time1 0) as [->|Hnz1].
  { eexists 0, _. rewrite EN2, ED2, ET2. split; [by vm_compute|]. split; [done|]. lia. }
  destruct (Hshape time1 ltac:(lia)) as (m1 & e1 & n1 & x1 & EN1 & Hm1 & He1 & ED1 & Hn1 & Hx1 & ET1 & Hp1).
  eexists _, _. rewrite EN1, ED1, ET1, EN2, ED2, ET2.
  split; [done|]. split; [done|]. split; [done|].
  apply trunc_mono; try lia.
  apply (div_million_mono m1 e1 m2 e2 n1 x1 n2 x2 Hm1 Hm2 He1 He2); [|done|done].
  apply (Number_mono time1 time2); [lia|done|done|done|done].
Qed.

(** X12.  For readings of the 64-bit clock, [getCurrentDate] is a valid
    date at or after the epoch, and a later reading never gives an
    earlier date. *)
Theorem getCurrentDate_monotone time1 time2 :
  0 ≤ time1 → time1 ≤ time2 → time2 < 2 ^ 64 →
  ∃ ms1 ms2, getCurrentDate time1 = VDate (Some ms1) ∧
             getCurrentDate time2 = VDate (Some ms2) ∧
             0 ≤ ms1 ∧ ms1 ≤ ms2.
Proof.
  intros H1 H12 H2. unfold getCurrentDate.
  destruct (clock_order time1 time2 H1 H12 H2) as (ms1 & ms2 & E1 & E2 & Hpos & Hle).
  exists ms1, ms2. by rewrite E1, E2.
Qed.

Lemma getCurrentDate_monotone_witness :
  (0 ≤ t0 ∧ t0 ≤ t1 ∧ t1 < 2 ^ 64) ∧
  ∃ ms1 ms2, getCurrentDate t0 = VDate (Some ms1) ∧
             getCurrentDate t1 = VDate (Some ms2) ∧
             0 ≤ ms1 ∧ ms1 ≤ ms2.
Proof.
  split; [unfold t0, t1; lia|].
  apply (getCurrentDate_monotone t0 t1); unfold t0, t1; lia.
Defined.

(** X13.  A record created at one reading of the clock and updated at
    a later one, by bodies that carry no [createdAt] (and no [id] at the
    create), has valid dates in [createdAt] and [updatedAt], and its
    [updatedAt] is not before its [createdAt]. *)
Theorem updatedAt_not_before_createdAt (s : store) uuid time1 time2 body1 body2 :
  0 ≤ time1 → time1 ≤ time2 → time2 < 2 ^ 64 →
  body1 !! "id" = None → body1 !! "createdAt" = None → body2 !! "createdAt" = None →
  ∃ d s1 d' s2 c u,
    post_documents uuid time1 body1 s = (json d, s1) ∧
    put_document uuid time2 body2 s1 = (json d', s2) ∧
    d' !! "createdAt" = Some (VDate (Some c)) ∧
    d' !! "updatedAt" = Some (VDate (Some u)) ∧
    c ≤ u.
Proof.
  intros H1 H12 H2 Hid Hc1 Hc2.
  destruct (clock_order time1 time2 H1 H12 H2) as (c & u & E1 & E2 & _ & Hle).
  assert (<[prop (spread (defaults uuid time1) body1) "id" := spread (defaults uuid time1) body1]> s
            !! VString uuid = Some (spread (defaults uuid time1) body1)) as Hd.
  { rewrite prop_created_id, Hid. apply lookup_insert_eq. }
  eexists _, _, _, _, c, u. split; [apply post_documents_eq|].
  split; [apply (put_document_found _ _ _ _ _ Hd)|].
  rewrite !lookup_merged, decide_False, decide_True by done.
  rewrite Hc2, lookup_spread, Hc1, defaults_createdAt.
  unfold getCurrentDate. by rewrite E1, E2.
Qed.

Lemma updatedAt_not_before_createdAt_witness :
  (0 ≤ t0 ∧ t0 ≤ t1 ∧ t1 < 2 ^ 64) ∧
  ∃ d s1 d' s2 c u,
    post_documents "u1" t0 {["name" := VString "A"]} ∅ = (json d, s1) ∧
    put_document "u1" t1 {["status" := VString "authenticated"]} s1 = (json d', s2) ∧
    d' !! "createdAt" = Some (VDate (Some c)) ∧
    d' !! "updatedAt" = Some (VDate (Some u)) ∧
    c ≤ u.
Proof.
  split; [unfold t0, t1; lia|].
  apply (updatedAt_not_before_createdAt ∅ "u1" t0 t1);
    try (unfold t0, t1; lia); by apply lookup_singleton_ne.
Defined.
